(** * Half-planes, hinges and triangulations of the bowman package

    A shallow embedding of [bowman/halfplane.py] and [triangulation.py].
    Exact numbers (Sage ring elements) are the elements of an ordered field:
    a [realFieldType] where the code only adds, multiplies, divides and
    compares, an [rcfType] where a radical [A + B*sqrt(C)] is given a value.
    A Python exception is a value [Raise e] of the type [result]. *)

From HB Require Import structures.
From mathcomp Require Import boot order algebra.
From mathcomp Require Import intdiv ring_tactic field_tactic arithmetic_tactic.
From mathcomp Require Import algC.

Set Implicit Arguments.
Unset Strict Implicit.
Unset Printing Implicit Defensive.

Import Order.TTheory GRing.Theory Num.Theory.
Local Open Scope ring_scope.

(** ** Exceptions *)

(** The messages of the [ValueError]s that the sources raise. *)
Inductive message : Type :=
| DegenerateInequality   (* "Coeffs determine a degenerate inequality" *)
| SidesDoNotCloseUp      (* "sides do not close up" *)
| SidesNotOriented       (* "sides are not oriented correctly" *)
| EdgesNotGlued.         (* "Edges are either nonparallel or oriented incorrectly" *)

Inductive exn : Type :=
| ValueError (msg : message)
| KeyError
| IndexError
| ZeroDivisionError
| NotImplementedError
| AttributeError
| TypeError
| RecursionError.

(** The outcome of a call: a returned value or a raised exception. *)
Inductive result (T : Type) : Type :=
| Return (x : T)
| Raise (e : exn).

Arguments Return {T} x.
Arguments Raise {T} e.

Definition bind {T U : Type} (m : result T) (k : T -> result U) : result U :=
  match m with
  | Return x => k x
  | Raise e => Raise e
  end.

Notation "x <~ m ;; k" := (bind m (fun x => k))
  (at level 200, m at level 100, k at level 200, right associativity,
   format "'[v' x  <~  m  ;; '/' k ']'").

Definition returns {T : Type} (m : result T) : bool :=
  if m is Return _ then true else false.

(** [for x in s: ... f(x) ...] collecting the values, stopping at the first
    exception. *)
Fixpoint mapM {T U : Type} (f : T -> result U) (s : seq T) : result (seq U) :=
  match s with
  | [::] => Return [::]
  | x :: s' => y <~ f x ;; ys <~ mapM f s' ;; Return (y :: ys)
  end.

(** ** The class HalfPlane and its subclasses Line and Circle *)

(** [class HalfPlane(namedtuple('HalfPlane', ['a', 'b', 'c']))] with the
    subclasses [Line] and [Circle]: an object is its class and its triple. *)
Inductive HalfPlane (R : Type) : Type :=
| BaseHalfPlane (a b c : R)    (* HalfPlane(a, b, c) *)
| Line (a b c : R)
| Circle (a b c : R).

Arguments BaseHalfPlane {R} a b c.
Arguments Line {R} a b c.
Arguments Circle {R} a b c.

Section Coefficients.

Variable R : Type.

Definition a (h : HalfPlane R) : R :=
  match h with BaseHalfPlane x _ _ | Line x _ _ | Circle x _ _ => x end.

Definition b (h : HalfPlane R) : R :=
  match h with BaseHalfPlane _ y _ | Line _ y _ | Circle _ y _ => y end.

Definition c (h : HalfPlane R) : R :=
  match h with BaseHalfPlane _ _ z | Line _ _ z | Circle _ _ z => z end.

(** [isinstance(h, Line)] and [isinstance(h, Circle)]. *)
Definition isinstance_Line (h : HalfPlane R) : bool :=
  if h is Line _ _ _ then true else false.

Definition isinstance_Circle (h : HalfPlane R) : bool :=
  if h is Circle _ _ _ then true else false.

(** The tuple behind the object; tuple equality and hashing look at it only. *)
Definition astuple (h : HalfPlane R) : R * R * R := (a h, b h, c h).

End Coefficients.

(** Objects are compared as Rocq values: class and triple. *)
Section HalfPlaneEquality.

Variable R : eqType.

Definition HalfPlane_code (h : HalfPlane R) : nat * (R * R * R) :=
  (match h with
   | BaseHalfPlane _ _ _ => 0%N
   | Line _ _ _ => 1%N
   | Circle _ _ _ => 2%N
   end, astuple h).

Definition HalfPlane_decode (x : nat * (R * R * R)) : HalfPlane R :=
  let: (k, (x, y, z)) := x in
  match k with
  | 0%N => BaseHalfPlane x y z
  | 1%N => Line x y z
  | _ => Circle x y z
  end.

Lemma HalfPlane_codeK : cancel HalfPlane_code HalfPlane_decode.
Proof. by case. Qed.

HB.instance Definition _ :=
  Equality.copy (HalfPlane R) (can_type HalfPlane_codeK).

End HalfPlaneEquality.

Section FromIneq.

Variable R : realFieldType.

(** [HalfPlane.from_ineq] *)
Definition from_ineq (a b c : R) : result (HalfPlane R) :=
  if (a == 0) && (b != 0) then Return (Line a b c)
  else if (a != 0) && (0 < b ^+ 2 - 4 * a * c) then Return (Circle a b c)
  else Raise (ValueError DegenerateInequality).

(** The half-planes of the data model: what [from_ineq] builds. *)
Definition valid (h : HalfPlane R) : bool :=
  match h with
  | BaseHalfPlane _ _ _ => false
  | Line a b _ => (a == 0) && (b != 0)
  | Circle a b c => (a != 0) && (0 < b ^+ 2 - 4 * a * c)
  end.

(** [x / y] on exact numbers: division by zero raises. *)
Definition div (x y : R) : result R :=
  if y == 0 then Raise ZeroDivisionError else Return (x / y).

(** [matrix([[a1, b1], [a2, b2]]).determinant()] *)
Definition determinant2 (M : (R * R) * (R * R)) : R :=
  M.1.1 * M.2.2 - M.1.2 * M.2.1.

(** [M.solve_right(vector([y1, y2]))] for a matrix of determinant not 0: the
    one solution of [M * x = y], by Cramer's rule. *)
Definition solve_right (M : (R * R) * (R * R)) (y : R * R) : R * R :=
  ((y.1 * M.2.2 - M.1.2 * y.2) / determinant2 M,
   (M.1.1 * y.2 - y.1 * M.2.1) / determinant2 M).

End FromIneq.

(** ** Radicals, points and edges (bowman.radical, bowman.polygon) *)

Module Radical.

(** Modelled from the spec: the class [Radical] of bowman/radical.py, whose
    source is not available. An exact
    number is a value representable as [p + q*sqrt(r)]; halfplane.py builds
    it as [Radical(A, B, C)] and takes it apart as a triple [A, B, C]. *)
Record t (R : Type) : Type := Make { A : R; B : R; C : R }.

Arguments Make {R} A B C.

(** Modelled from the spec: the number [A + B*sqrt(C)] that the triple
    represents. *)
Definition value {R : rcfType} (r : t R) : R := A r + B r * Num.sqrt (C r).

End Radical.

Module Point.

(** Modelled from the spec: the class [Point] of bowman/polygon.py, whose
    source is not available. Its first
    field is an exact number or the sentinel infinity ([oo]), its second
    field an exact number. *)
Inductive coordinate (R : Type) : Type :=
| Finite (r : Radical.t R)
| oo.

Arguments Finite {R} r.
Arguments oo {R}.

Record t (R : Type) : Type := Make { u : coordinate R; v : R }.

Arguments Make {R} u v.

Section Operations.

Variable R : rcfType.

(** [Point(x, v)] with a field element [x]: the first field holds the
    radical [x + 0*sqrt(0)], which is what [center.u.A] and
    [A, *_ = endpoint_real.u] in halfplane.py read back. *)
Definition of_number (x : R) (v : R) : t R :=
  Make (Finite (Radical.Make x 0 0)) v.

(** Modelled from the spec: true iff [u] is the infinity sentinel. *)
Definition is_infinity (p : t R) : bool :=
  if u p is oo then true else false.

(** Modelled from the spec: [hp.a*(u^2 + v^2) + hp.b*u + hp.c] at the
    coordinates of an ordinary point. The code reads [.value] off the result
    of [Point._plug_point_into_halfplane(point, hp)]; this is that value. *)
Definition _plug_point_into_halfplane (x : Radical.t R) (v : R)
    (hp : HalfPlane R) : R :=
  a hp * (Radical.value x ^+ 2 + v ^+ 2) + b hp * Radical.value x + c hp.

(** [p.u.A]: the attribute [A] of the radical; infinity has none. *)
Definition u_A (p : t R) : result R :=
  if u p is Finite r then Return (Radical.A r) else Raise AttributeError.

(** [A, B, C = p.u]: infinity does not unpack. *)
Definition unpack_u (p : t R) : result (Radical.t R) :=
  if u p is Finite r then Return r else Raise TypeError.

End Operations.

End Point.

Module Edge.

(** Modelled from the spec: the class [Edge] of bowman/polygon.py, whose
    source is not available. Three fields:
    the half-plane whose boundary the edge lies on, or [None]; and the two
    endpoints. halfplane.py stores whatever [intersect_boundaries] returns
    as an endpoint, so an endpoint is a point or [None]. *)
Record t (R : Type) : Type := Make {
  halfplane : option (HalfPlane R);
  start : option (Point.t R);
  end_ : option (Point.t R)
}.

Arguments Make {R} halfplane start end_.

(** Modelled from the spec: an edge with no half-plane is ideal. *)
Definition is_ideal {R : Type} (e : t R) : bool :=
  if halfplane e is None then true else false.

End Edge.

(** ** bowman/halfplane.py *)

Section HalfPlaneGeometry.

Variable R : rcfType.

(** Modelled from the spec: [Point.CCW(p1, p2, p3)], of bowman/polygon.py,
    has no source available; the
    clipping code uses it as an orientation oracle and nothing else. *)
Variable CCW : Point.t R -> Point.t R -> Point.t R -> bool.

Notation HalfPlane := (HalfPlane R).
Notation Point := (Point.t R).
Notation Edge := (Edge.t R).

(** The last two lines of [contains_point], for a point that is not at
    infinity: [result == 0 or (not on_boundary and result > 0)]. *)
Definition contains_ordinary (self : HalfPlane) (x : Radical.t R) (v : R)
    (on_boundary : bool) : bool :=
  let result := Point._plug_point_into_halfplane x v self in
  (result == 0) || (~~ on_boundary && (0 < result)).

(** *** class Line *)

Definition Line_is_oriented (self : HalfPlane) : bool := b self < 0.

Definition Line_start (self : HalfPlane) : result Point :=
  if Line_is_oriented self then
    A <~ div (- c self) (b self) ;; Return (Point.of_number A 0)
  else Return (Point.Make Point.oo 0).

Definition Line_end (self : HalfPlane) : result Point :=
  if Line_is_oriented self then Return (Point.Make Point.oo 0)
  else A <~ div (- c self) (b self) ;; Return (Point.of_number A 0).

Definition Line_endpoint_real (self : HalfPlane) : result Point :=
  if Line_is_oriented self then Line_start self else Line_end self.

Definition Line_point_inside (self : HalfPlane) : result Point :=
  p <~ Line_endpoint_real self ;;
  r <~ Point.unpack_u p ;;
  let A := Radical.A r in
  if Line_is_oriented self then Return (Point.of_number (A - 1) 0)
  else Return (Point.of_number (A + 1) 0).

Definition Line_point_outside (self : HalfPlane) : result Point :=
  p <~ Line_endpoint_real self ;;
  r <~ Point.unpack_u p ;;
  let A := Radical.A r in
  if Line_is_oriented self then Return (Point.of_number (A + 1) 0)
  else Return (Point.of_number (A - 1) 0).

(** *** class Circle *)

Definition Circle_center (self : HalfPlane) : result Point :=
  x <~ div (- b self) (2 * a self) ;; Return (Point.of_number x 0).

Definition Circle_radius2 (self : HalfPlane) : result R :=
  div (b self ^+ 2 - 4 * a self * c self) (4 * a self ^+ 2).

(** [self.contains_point(self.center)]: the centre is not at infinity, so
    the call runs the last two lines of [contains_point] (lemma
    [Circle_is_oriented_contains_point] below). For a centre at infinity
    [contains_point] would ask [is_oriented] again, without end. *)
Definition Circle_is_oriented (self : HalfPlane) : result bool :=
  center <~ Circle_center self ;;
  match Point.u center with
  | Point.oo => Raise RecursionError
  | Point.Finite x =>
      Return (contains_ordinary self x (Point.v center) false)
  end.

Definition Circle_start (self : HalfPlane) : result Point :=
  center <~ Circle_center self ;;
  coord_center <~ Point.u_A center ;;
  oriented <~ Circle_is_oriented self ;;
  let plus_or_minus := if oriented then 1 else -1 in
  radius2 <~ Circle_radius2 self ;;
  Return (Point.Make
            (Point.Finite (Radical.Make coord_center plus_or_minus radius2)) 0).

Definition Circle_end (self : HalfPlane) : result Point :=
  center <~ Circle_center self ;;
  coord_center <~ Point.u_A center ;;
  oriented <~ Circle_is_oriented self ;;
  let plus_or_minus := if oriented then -1 else 1 in
  radius2 <~ Circle_radius2 self ;;
  Return (Point.Make
            (Point.Finite (Radical.Make coord_center plus_or_minus radius2)) 0).

Definition Circle_point_inside (self : HalfPlane) : result Point :=
  oriented <~ Circle_is_oriented self ;;
  if oriented then Circle_center self
  else
    p <~ Circle_end self ;;
    r <~ Point.unpack_u p ;;
    let: Radical.Make A B C := r in
    Return (Point.Make (Point.Finite (Radical.Make (A + 1) B C)) 0).

Definition Circle_point_outside (self : HalfPlane) : result Point :=
  oriented <~ Circle_is_oriented self ;;
  if oriented then
    p <~ Circle_start self ;;
    r <~ Point.unpack_u p ;;
    let: Radical.Make A B C := r in
    Return (Point.Make (Point.Finite (Radical.Make (A + 1) B C)) 0)
  else Circle_center self.

(** *** The properties of HalfPlane, by the class of the object *)

Definition is_oriented (self : HalfPlane) : result bool :=
  match self with
  | BaseHalfPlane _ _ _ => Raise NotImplementedError
  | Line _ _ _ => Return (Line_is_oriented self)
  | Circle _ _ _ => Circle_is_oriented self
  end.

Definition start (self : HalfPlane) : result Point :=
  match self with
  | BaseHalfPlane _ _ _ => Raise NotImplementedError
  | Line _ _ _ => Line_start self
  | Circle _ _ _ => Circle_start self
  end.

Definition end_ (self : HalfPlane) : result Point :=
  match self with
  | BaseHalfPlane _ _ _ => Raise NotImplementedError
  | Line _ _ _ => Line_end self
  | Circle _ _ _ => Circle_end self
  end.

Definition _point_inside (self : HalfPlane) : result Point :=
  match self with
  | BaseHalfPlane _ _ _ => Raise NotImplementedError
  | Line _ _ _ => Line_point_inside self
  | Circle _ _ _ => Circle_point_inside self
  end.

Definition _point_outside (self : HalfPlane) : result Point :=
  match self with
  | BaseHalfPlane _ _ _ => Raise NotImplementedError
  | Line _ _ _ => Line_point_outside self
  | Circle _ _ _ => Circle_point_outside self
  end.

(** *** contains_point *)

Definition contains_point (self : HalfPlane) (point : Point)
    (on_boundary : bool) : result bool :=
  match Point.u point with
  | Point.oo =>                                   (* point.is_infinity *)
      if ~~ on_boundary then
        if isinstance_Line self then Return true
        else oriented <~ is_oriented self ;; Return (~~ oriented)
      else Return (isinstance_Line self)
  | Point.Finite x =>
      Return (contains_ordinary self x (Point.v point) on_boundary)
  end.

(** An endpoint of an edge is a point or [None]; [None.is_infinity] raises. *)
Definition the_point (endpoint : option Point) : result Point :=
  if endpoint is Some p then Return p else Raise AttributeError.

(** *** intersect_boundaries *)

Definition intersect_boundaries (self other : HalfPlane) : option Point :=
  if isinstance_Line self && isinstance_Line other then
    Some (Point.Make Point.oo 0)
  else
    let M := ((a self, b self), (a other, b other)) in
    if determinant2 M == 0 then None
    else
      let: (u2_plus_v2, u) := solve_right M (- c self, - c other) in
      let v2 := u2_plus_v2 - u ^+ 2 in
      if v2 < 0 then None
      else Some (Point.Make (Point.Finite (Radical.Make u 0 0)) v2).

(** [self.intersect_boundaries(edge.halfplane)]: the argument is the field of
    an edge, a half-plane or [None], and [None] has no attribute [a]. *)
Definition intersect_boundaries_field (self : HalfPlane)
    (other : option HalfPlane) : result (option Point) :=
  if other is Some h then Return (intersect_boundaries self h)
  else Raise AttributeError.

(** *** Clipping an edge *)

Definition _intersect_edge_real (self : HalfPlane) (edge : Edge)
    : result (seq Edge) :=
  p1 <~ the_point (Edge.start edge) ;;
  contains_start <~ contains_point self p1 false ;;
  p2 <~ the_point (Edge.end_ edge) ;;
  contains_end <~ contains_point self p2 false ;;
  if contains_start && contains_end then Return [:: edge]
  else if ~~ (contains_start || contains_end) then Return [::]
  else
    edge_intersect_boundary <~
      intersect_boundaries_field self (Edge.halfplane edge) ;;
    if contains_start then
      Return [:: Edge.Make (Edge.halfplane edge) (Edge.start edge)
                   edge_intersect_boundary]
    else
      Return [:: Edge.Make (Edge.halfplane edge) edge_intersect_boundary
                   (Edge.end_ edge)].

Definition _intersect_edge_ideal (self : HalfPlane) (edge : Edge)
    : result (seq Edge) :=
  p1 <~ the_point (Edge.start edge) ;;
  includes_edge_start <~ contains_point self p1 false ;;
  p2 <~ the_point (Edge.end_ edge) ;;
  includes_edge_end <~ contains_point self p2 false ;;
  if includes_edge_start && includes_edge_end then
    outside <~ _point_outside self ;;
    if CCW p1 p2 outside then Return [:: edge]
    else
      self_start <~ start self ;;
      self_end <~ end_ self ;;
      Return [:: Edge.Make None (Edge.start edge) (Some self_start);
                 Edge.Make None (Some self_end) (Edge.end_ edge)]
  else if includes_edge_start != includes_edge_end then
    if includes_edge_start then
      self_start <~ start self ;;
      Return [:: Edge.Make None (Edge.start edge) (Some self_start)]
    else
      self_end <~ end_ self ;;
      Return [:: Edge.Make None (Some self_end) (Edge.end_ edge)]
  else
    inside <~ _point_inside self ;;
    if CCW p1 p2 inside then Return [::]
    else
      self_end <~ end_ self ;;
      self_start <~ start self ;;
      Return [:: Edge.Make None (Some self_end) (Some self_start)].

Definition intersect_edge (self : HalfPlane) (edge : Edge)
    : result (seq Edge) :=
  if Edge.is_ideal edge then _intersect_edge_ideal self edge
  else _intersect_edge_real self edge.

End HalfPlaneGeometry.

(** ** triangulation.py *)

(** Python containers: [s[i]] on a list and [d[k]] on a dict. Indices and
    labels are the non-negative integers that [itertools.product(range(n),
    range(3))] and the gluing dict of a triangulation hold. *)
Section Containers.

Variables (K : eqType) (V : Type).

Fixpoint getitem (s : seq V) (i : nat) : result V :=
  match s, i with
  | [::], _ => Raise IndexError
  | x :: _, 0%N => Return x
  | _ :: s', i'.+1 => getitem s' i'
  end.

(** A dict as the list of its items; its keys are distinct. *)
Definition dict : Type := seq (K * V).

Fixpoint lookup (d : dict) (k : K) : result V :=
  match d with
  | [::] => Raise KeyError
  | (k', x) :: d' => if k' == k then Return x else lookup d' k
  end.

(** [[x for x in s if p(x)]] where the test can raise. *)
Fixpoint filterM (p : V -> result bool) (s : seq V) : result (seq V) :=
  match s with
  | [::] => Return [::]
  | x :: s' =>
      keep <~ p x ;;
      xs <~ filterM p s' ;;
      Return (if keep then x :: xs else xs)
  end.

End Containers.

(** A pair [(triangleIndex, edgeIndex)]. *)
Definition label : Type := (nat * nat)%type.

(** [e1 < e2] on tuples of integers: lexicographic. *)
Definition tuple_lt (e1 e2 : label) : bool :=
  (e1.1 < e2.1)%N || ((e1.1 == e2.1) && (e1.2 < e2.2)%N).

(** [(l - 1) % 3] on Python integers, for a label [l] that is not negative:
    the remainder has the sign of the divisor. *)
Definition pred_mod3 (l : nat) : nat := `|((l%:Z - 1) %% 3)%Z|%N.

Section Vectors.

Variable R : realFieldType.

(** A Sage vector with two entries. *)
Definition vector : Type := (R * R)%type.

Definition vneg (w : vector) : vector := (- w.1, - w.2).

Definition vadd (w1 w2 : vector) : vector := (w1.1 + w2.1, w1.2 + w2.2).

(** [sum(edges)] *)
Definition vsum (s : seq vector) : vector := foldr vadd (0, 0) s.

(** [matrix(rows).determinant()] for three rows of three entries: expansion
    along the first row (lemma [determinant3_det] relates it to the
    determinant of the matrix library). *)
Definition determinant3 (M : (R * R * R) * (R * R * R) * (R * R * R)) : R :=
  let: ((m00, m01, m02), (m10, m11, m12), (m20, m21, m22)) := M in
  m00 * (m11 * m22 - m12 * m21)
  - m01 * (m10 * m22 - m12 * m20)
  + m02 * (m10 * m21 - m11 * m20).

(** The same rows as a matrix of the library. *)
Definition matrix3 (M : (R * R * R) * (R * R * R) * (R * R * R)) : 'M[R]_3 :=
  let: (r0, r1, r2) := M in
  \matrix_(i < 3, j < 3)
    let: (x, y, z) := nth r0 [:: r0; r1; r2] i in nth x [:: x; y; z] j.

End Vectors.

Module Triangle.

Section Triangle.

Variable R : realFieldType.

Record t : Type := Make { edges : seq (vector R) }.

(** [Triangle.__init__] *)
Definition init (edges : seq (vector R)) : result t :=
  if vsum edges != (0, 0) then Raise (ValueError SidesDoNotCloseUp)
  else
    e0 <~ getitem edges 0 ;;
    e2 <~ getitem edges 2 ;;
    if determinant2 (e0, vneg e2) <= 0 then Raise (ValueError SidesNotOriented)
    else Return (Make edges).

End Triangle.

End Triangle.


Module Hinge.

Section Hinge.

Variable R : realFieldType.

Record t : Type := Make { vectors : vector R * vector R * vector R }.

Lemma vectorsK : cancel vectors Make.
Proof. by case. Qed.

(** [matrix([[v[0], v[1], f(v)] for v in self.vectors])] *)
Definition rows (f : vector R -> R) (self : t)
    : (R * R * R) * (R * R * R) * (R * R * R) :=
  let: (w0, w1, w2) := vectors self in
  ((w0.1, w0.2, f w0), (w1.1, w1.2, f w1), (w2.1, w2.2, f w2)).

(** [Hinge._from_triangles] *)
Definition _from_triangles (triangle1 : Triangle.t R) (label_e1 : nat)
    (triangle2 : Triangle.t R) (label_e2 : nat) : result t :=
  edge1 <~ getitem (Triangle.edges triangle1) label_e1 ;;
  edge2 <~ getitem (Triangle.edges triangle2) label_e2 ;;
  if edge1 != vneg edge2 then Raise (ValueError EdgesNotGlued)
  else
    v0 <~ getitem (Triangle.edges triangle2) ((label_e2 + 1) %% 3) ;;
    let v1 := edge1 in
    w <~ getitem (Triangle.edges triangle1) (pred_mod3 label_e1) ;;
    let v2 := vneg w in
    Return (Make (v0, v1, v2)).

Definition incircle_test (self : t) : R :=
  determinant3 (rows (fun w => w.1 ^+ 2 + w.2 ^+ 2) self).

Definition halfplane (self : t) : HalfPlane R :=
  let a := determinant3 (rows (fun w => w.2 ^+ 2) self) in
  let b := 2 * determinant3 (rows (fun w => w.1 * w.2) self) in
  let c := determinant3 (rows (fun w => w.1 ^+ 2) self) in
  BaseHalfPlane a b c.

End Hinge.

End Hinge.

(** Hinges are compared by their vectors ([Hinge.__eq__]). *)
HB.instance Definition _ (R : realFieldType) :=
  Equality.copy (Hinge.t R) (can_type (@Hinge.vectorsK R)).

Module Triangulation.

Section Triangulation.

Variable R : realFieldType.

(** The third field, [base_ring], is the field [R] itself. *)
Record t : Type := Make {
  triangles : seq (Triangle.t R);
  gluings : dict label label
}.

(** [itertools.product(range(num_triangles), range(3))] *)
Definition product_range (num_triangles : nat) : seq label :=
  [seq (i, j) | i <- iota 0 num_triangles, j <- iota 0 3].

(** [edges(gluings=False)] *)
Definition edges (self : t) : result (seq label) :=
  let num_triangles := size (triangles self) in
  let edges := product_range num_triangles in
  filterM (fun edge => image <~ lookup (gluings self) edge ;;
                       Return (tuple_lt edge image)) edges.

(** [edges(gluings=True)] *)
Definition edges_gluings (self : t) : result (seq (label * label)) :=
  reps <~ edges self ;;
  mapM (fun rep => image <~ lookup (gluings self) rep ;; Return (rep, image))
       reps.

Definition _hinge (self : t) (edge : label) : result (Hinge.t R) :=
  edge_opposite <~ lookup (gluings self) edge ;;
  tri1 <~ getitem (triangles self) edge.1 ;;
  tri2 <~ getitem (triangles self) edge_opposite.1 ;;
  Hinge._from_triangles tri1 edge.2 tri2 edge_opposite.2.

Definition hinges (self : t) : result (seq (Hinge.t R)) :=
  reps <~ edges self ;;
  mapM (_hinge self) reps.

Definition is_delaunay (self : t) (strict : bool) : result bool :=
  if strict then
    hs <~ hinges self ;;
    Return (all (fun hinge => 0 < Hinge.incircle_test hinge) hs)
  else
    hs <~ hinges self ;;
    Return (all (fun hinge => 0 <= Hinge.incircle_test hinge) hs).

(** [self.gluings[edge]] where the dict has the key. *)
Definition image (self : t) (edge : label) : label :=
  if lookup (gluings self) edge is Return opposite then opposite else edge.

(** The invariant of the gluing map: on the pairs of [edges()] it is an
    involution without fixed point. *)
Definition fixed_point_free_involution (self : t) : bool :=
  let pairs := product_range (size (triangles self)) in
  all (fun edge =>
         if lookup (gluings self) edge is Return image then
           [&& image != edge, image \in pairs
             & if lookup (gluings self) image is Return back
               then back == edge else false]
         else false)
      pairs.



End Triangulation.

End Triangulation.

(** ** Two objects to run the code on *)

(** The unit square cut along a diagonal, opposite sides glued: the two
    triangles of a square torus, edge [i] of one glued to edge [i] of the
    other. ([Triangulation.square_torus()] takes its triangles from flatsurf,
    a library outside the repository.) *)
Definition square_torus : Triangulation.t rat :=
  Triangulation.Make
    [:: Triangle.Make [:: (1, 0); (0, 1); (-1, -1)];
        Triangle.Make [:: (-1, 0); (0, -1); (1, 1)]]
    [:: ((0, 0), (1, 0)); ((0, 1), (1, 1)); ((0, 2), (1, 2));
        ((1, 0), (0, 0)); ((1, 1), (0, 1)); ((1, 2), (0, 2))]%N.

(** [Hinge((1, 0), (2, 0), (3, 0))]: three vectors on a line. *)
Definition flat_hinge : Hinge.t rat := Hinge.Make ((1, 0), (2, 0), (3, 0)).

(** ** triangulation.py: apply_matrix *)

Section ApplyMatrix.

Variable R : realFieldType.

(** [M * edge] for a 2x2 matrix given by its rows. *)
Definition mulmv (M : (R * R) * (R * R)) (w : vector R) : vector R :=
  (M.1.1 * w.1 + M.1.2 * w.2, M.2.1 * w.1 + M.2.2 * w.2).

(** [Triangle.apply_matrix] of triangulation.py: the constructor checks the
    new edges. *)
Definition Triangle_apply_matrix (self : Triangle.t R)
    (M : (R * R) * (R * R)) : result (Triangle.t R) :=
  Triangle.init [seq mulmv M edge | edge <- Triangle.edges self].

(** [Triangulation.apply_matrix] *)
Definition Triangulation_apply_matrix (self : Triangulation.t R)
    (M : (R * R) * (R * R)) : result (Triangulation.t R) :=
  triangles <~ mapM (fun triangle => Triangle_apply_matrix triangle M)
                    (Triangulation.triangles self) ;;
  Return (Triangulation.Make triangles (Triangulation.gluings self)).

(** The triangles that [Triangle.__init__] accepts. *)
Definition Triangle_valid (self : Triangle.t R) : bool :=
  returns (Triangle.init (Triangle.edges self)).

(** The image of a hinge under a matrix, vector by vector. (A hinge has no
    [apply_matrix]: this is what [hinges()] builds after
    [Triangulation.apply_matrix].) *)
Definition Hinge_image (M : (R * R) * (R * R)) (hinge : Hinge.t R)
    : Hinge.t R :=
  let: (w0, w1, w2) := Hinge.vectors hinge in
  Hinge.Make (mulmv M w0, mulmv M w1, mulmv M w2).

End ApplyMatrix.

(** ** triangulation.py: consistent gluings *)

Section Gluing.

Variable R : realFieldType.

(** [self.triangles[edge[0]].edges[edge[1]]], for a pair in range. *)
Definition edge_vector (self : Triangulation.t R) (edge : label) : vector R :=
  nth (0, 0)
    (Triangle.edges (nth (Triangle.Make [::]) (Triangulation.triangles self)
                         edge.1))
    edge.2.

(** Glued edges are opposite vectors: the test of [Hinge._from_triangles],
    for every pair. *)
Definition consistently_glued (self : Triangulation.t R) : bool :=
  all (fun edge =>
         edge_vector self edge
         == vneg (edge_vector self (Triangulation.image self edge)))
      (Triangulation.product_range (size (Triangulation.triangles self))).

(** A triangle with exactly three edges that close up. *)
Definition closing3 (self : Triangle.t R) : bool :=
  (size (Triangle.edges self) == 3%N) && (vsum (Triangle.edges self) == (0, 0)).

End Gluing.

(** The same two triangles over any field of exact numbers. *)
Definition square_torus_over (R : realFieldType) : Triangulation.t R :=
  Triangulation.Make
    [:: Triangle.Make [:: (1, 0); (0, 1); (-1, -1)];
        Triangle.Make [:: (-1, 0); (0, -1); (1, 1)]]
    [:: ((0, 0), (1, 0)); ((0, 1), (1, 1)); ((0, 2), (1, 2));
        ((1, 0), (0, 0)); ((1, 1), (0, 1)); ((1, 2), (0, 2))]%N.

(** ** bowman/triangle.py *)

Module BowmanTriangle.

(** The exceptions of bowman/triangle.py: those of the other files, and the
    [ValueError]s with the messages "Invalid barycentric coordinates." and
    "Invalid index {i}. A triangle has only three edges." *)
Inductive error : Type :=
| Exn (e : exn)
| InvalidBarycentricCoordinates
| InvalidIndex (key : nat).

Inductive outcome (T : Type) : Type :=
| Ok (x : T)
| Err (e : error).

Arguments Ok {T} x.
Arguments Err {T} e.

Definition and_then {T U : Type} (m : outcome T) (k : T -> outcome U)
    : outcome U :=
  match m with
  | Ok x => k x
  | Err e => Err e
  end.

Notation "x <- m ;;; k" := (and_then m (fun x => k))
  (at level 200, m at level 100, k at level 200, right associativity).

(** A call into the code of the other files. *)
Definition lift {T : Type} (m : result T) : outcome T :=
  match m with
  | Return x => Ok x
  | Raise e => Err (Exn e)
  end.

Section Triangle.

Variable R : realFieldType.

(** The type of a colour [(r, g, b)]; the code only stores it. *)
Variable Color : Type.

Definition barycentric : Type := (R * R * R)%type.

Definition is_valid_barycentric_coordinate (a0 a1 a2 : R) : bool :=
  if a0 + a1 + a2 != 1 then false
  else if [|| a0 < 0, a1 < 0 | a2 < 0] then false
  else true.

Record t : Type := Make {
  v0 : vector R;
  v1 : vector R;
  v2 : vector R;
  points_marked : seq (barycentric * Color)
}.

(** A marked point whose coordinates are valid. *)
Definition valid_point (p : barycentric * Color) : bool :=
  let: (a0, a1, a2) := p.1 in is_valid_barycentric_coordinate a0 a1 a2.

(** The loop of [__init__] over [points_marked]. *)
Fixpoint check_points (points : seq (barycentric * Color)) : outcome unit :=
  match points with
  | [::] => Ok tt
  | (point_marked, _) :: points' =>
      let: (a0, a1, a2) := point_marked in
      if ~~ is_valid_barycentric_coordinate a0 a1 a2
      then Err InvalidBarycentricCoordinates
      else check_points points'
  end.

(** [Triangle.__init__(v0, v1, v2, points_marked=None)] *)
Definition init (v0 v1 v2 : vector R)
    (points_marked : option (seq (barycentric * Color))) : outcome t :=
  if vadd (vadd v0 v1) v2 != (0, 0)
  then Err (Exn (ValueError SidesDoNotCloseUp))
  else if determinant2 (v0, vneg v2) <= 0
  then Err (Exn (ValueError SidesNotOriented))
  else
    match points_marked with
    | None => Ok (Make v0 v1 v2 [::])
    | Some points =>
        _ <- check_points points ;;;
        Ok (Make v0 v1 v2 points)
    end.

(** The loop of [mark_point]: the index of the first marked point with
    these coordinates gets the new colour. *)
Fixpoint recolor (points : seq (barycentric * Color)) (coords : barycentric)
    (rgbcolor : Color) : option (seq (barycentric * Color)) :=
  match points with
  | [::] => None
  | (point_marked, color) :: points' =>
      if coords == point_marked then Some ((coords, rgbcolor) :: points')
      else
        if recolor points' coords rgbcolor is Some points''
        then Some ((point_marked, color) :: points'')
        else None
  end.

Definition mark_point (self : t) (coords : barycentric) (rgbcolor : Color)
    : outcome t :=
  let: (a0, a1, a2) := coords in
  if ~~ is_valid_barycentric_coordinate a0 a1 a2
  then Err InvalidBarycentricCoordinates
  else
    match recolor (points_marked self) coords rgbcolor with
    | Some points => init (v0 self) (v1 self) (v2 self) (Some points)
    | None =>
        init (v0 self) (v1 self) (v2 self)
             (Some (points_marked self ++ [:: (coords, rgbcolor)]))
    end.

(** [__getitem__] *)
Definition getitem (self : t) (key : nat) : outcome (vector R) :=
  match key with
  | 0%N => Ok (v0 self)
  | 1%N => Ok (v1 self)
  | 2%N => Ok (v2 self)
  | _ => Err (InvalidIndex key)
  end.

Definition dot_product (v w : vector R) : R := v.1 * w.1 + v.2 * w.2.

Definition scale (k : R) (w : vector R) : vector R := (k * w.1, k * w.2).

Definition vsub (w1 w2 : vector R) : vector R := vadd w1 (vneg w2).

(** The local function [reflect_vector(v, w)] of [reflect]. *)
Definition reflect_vector (v w : vector R) : outcome (vector R) :=
  k <- lift (div (dot_product v w) (dot_product v v)) ;;;
  let w_parallel := scale k v in
  let w_perp := vsub w w_parallel in
  Ok (vsub w (scale 2 w_perp)).

Definition reflect (self : t) (idx : nat) : outcome t :=
  v_axis <- getitem self idx ;;;
  v_succ <- getitem self ((idx + 1) %% 3) ;;;
  v_pred <- getitem self ((idx + 2) %% 3) ;;;
  side_succ <- reflect_vector v_axis (vneg v_pred) ;;;
  side_pred <- reflect_vector v_axis (vneg v_succ) ;;;
  let sides_new := [:: (idx, vneg v_axis); (((idx + 1) %% 3)%N, side_succ);
                       (((idx + 2) %% 3)%N, side_pred)] in
  s0 <- lift (lookup sides_new 0%N) ;;;
  s1 <- lift (lookup sides_new 1%N) ;;;
  s2 <- lift (lookup sides_new 2%N) ;;;
  init s0 s1 s2 (Some (points_marked self)).

(** [vertices(basepoint)] *)
Definition vertices (self : t) (basepoint : vector R) : seq (vector R) :=
  [:: basepoint; vadd basepoint (v0 self); vsub basepoint (v2 self)].

Definition apply_matrix (self : t) (m : (R * R) * (R * R)) : outcome t :=
  let w0 := mulmv m (v0 self) in
  let w1 := mulmv m (v1 self) in
  let w2 := vneg (vadd w0 w1) in
  init w0 w1 w2 (Some (points_marked self)).

Definition area (self : t) : R :=
  (1 / 2) * `|determinant2 (v0 self, vneg (v2 self))|.

(** The triangles that [__init__] builds: the invariant of the class. *)
Definition well_formed (self : t) : Prop :=
  init (v0 self) (v1 self) (v2 self) (Some (points_marked self)) = Ok self.

(** What [reflect_vector(v, w)] returns when [v] is not the zero vector. *)
Definition mirror (v w : vector R) : vector R :=
  vsub w (scale 2 (vsub w (scale (dot_product v w / dot_product v v) v))).

(** [self[i].dot_product(self[i])]: the squared length of side [i]. *)
Definition length2 (self : t) (i : nat) : outcome R :=
  w <- getitem self i ;;; Ok (dot_product w w).

(** The colour a point is marked with: that of its first entry. *)
Fixpoint color_of (points : seq (barycentric * Color)) (coords : barycentric)
    : option Color :=
  match points with
  | [::] => None
  | (point_marked, color) :: points' =>
      if coords == point_marked then Some color else color_of points' coords
  end.

End Triangle.

End BowmanTriangle.


(** * Properties *)

(** ** from_ineq *)

Section FromIneqProperties.

Variable R : realFieldType.

Implicit Types a b c : R.

Lemma from_ineq_valid a b c (h : HalfPlane R) :
  from_ineq a b c = Return h -> valid h /\ astuple h = (a, b, c).
Proof.
rewrite /from_ineq.
case: ifP => [ab|_]; first by case=> <-.
by case: ifP => [ab|_] //; case=> <-.
Qed.

Lemma valid_from_ineq (h : HalfPlane R) :
  valid h -> from_ineq (a h) (b h) (c h) = Return h.
Proof.
case: h => x y z //=; rewrite /from_ineq; first by move->.
by case/andP=> /negPf -> ->.
Qed.

(** C7. [from_ineq(a, b, c)] returns the Line exactly when [a = 0] and
    [b <> 0], the Circle exactly when [a <> 0] and [b^2 - 4ac > 0], and
    raises the degenerate-inequality [ValueError] exactly in the other
    cases; [from_ineq(0, 0, 1)] and [from_ineq(1, 0, 1)] raise it. *)
Theorem from_ineq_cases a b c :
  [/\ from_ineq a b c = Return (Line a b c) <-> a = 0 /\ b <> 0,
      from_ineq a b c = Return (Circle a b c)
        <-> a <> 0 /\ 0 < b ^+ 2 - 4 * a * c,
      from_ineq a b c = Raise (ValueError DegenerateInequality)
        <-> ~ (a = 0 /\ b <> 0) /\ ~ (a <> 0 /\ 0 < b ^+ 2 - 4 * a * c),
      (forall h, from_ineq a b c = Return h
         -> h = Line a b c \/ h = Circle a b c)
    & from_ineq (0 : R) 0 1 = Raise (ValueError DegenerateInequality)
      /\ from_ineq (1 : R) 0 1 = Raise (ValueError DegenerateInequality)].
Proof.
have lineP : reflect (a = 0 /\ b <> 0) ((a == 0) && (b != 0)).
  by apply: (iffP andP) => -[/eqP a0 /eqP b0].
have circleP : reflect (a <> 0 /\ 0 < b ^+ 2 - 4 * a * c)
                 ((a != 0) && (0 < b ^+ 2 - 4 * a * c)).
  by apply: (iffP andP) => -[/eqP a0 d].
have excl : ~ ((a = 0 /\ b <> 0) /\ (a <> 0 /\ 0 < b ^+ 2 - 4 * a * c)).
  by case=> -[a0 _] [].
rewrite /from_ineq; split.
- case: lineP => [ab|nab]; first by split.
  by case: circleP => _; split.
- case: lineP => [ab|nab]; first by split=> // cd; case: excl.
  by case: circleP => [cd|ncd]; split.
- case: lineP => [ab|nab]; first by split=> // -[].
  by case: circleP => [cd|ncd]; split=> // -[].
- move=> h; case: lineP => _; first by case=> <-; left.
  by case: circleP => _ //; case=> <-; right.
- rewrite !eqxx /= oner_eq0 /=; split=> //.
  have -> // : (0 < (0 : R) ^+ 2 - 4 * 1 * 1) = false.
  by apply/negbTE; rewrite -leNgt; lra.
Qed.

End FromIneqProperties.

(** ** contains_point and intersect_boundaries *)

Section GeometryProperties.

Variable R : rcfType.

Implicit Types (h : HalfPlane R) (p : Point.t R).

Lemma valid_Circle_a_neq0 (x y z : R) : valid (Circle x y z) -> 2 * x != 0.
Proof. by case/andP=> x0 _; rewrite mulf_neq0 // pnatr_eq0. Qed.

(** The centre of a circle is an ordinary point, so [is_oriented] of a
    Circle is the call [self.contains_point(self.center)] of the source. *)
Lemma Circle_is_oriented_contains_point h :
  Circle_is_oriented h = (center <~ Circle_center h ;;
                          contains_point h center false).
Proof. by rewrite /Circle_is_oriented /Circle_center; case: div. Qed.

(** The first branch of [contains_point] is the test [point.is_infinity]. *)
Lemma contains_point_is_infinity h p on_boundary :
  Point.is_infinity p ->
  contains_point h p on_boundary
  = if ~~ on_boundary then
      if isinstance_Line h then Return true
      else oriented <~ is_oriented h ;; Return (~~ oriented)
    else Return (isinstance_Line h).
Proof. by rewrite /Point.is_infinity /contains_point; case: (Point.u p). Qed.

Lemma valid_is_oriented h : valid h -> returns (is_oriented h).
Proof.
case: h => x y z //= ok.
rewrite /Circle_is_oriented /Circle_center /div /=.
by rewrite (negPf (valid_Circle_a_neq0 ok)).
Qed.

(** C4. For a valid half-plane: at infinity, [contains_point(p)] is true iff
    the half-plane is a Line or is not oriented, and
    [contains_point(p, on_boundary=True)] iff it is a Line; at an ordinary
    point with plug-in value [r = a*(u^2 + v^2) + b*u + c] it is true iff
    [r = 0] or ([on_boundary] is false and [r > 0]). For the Line
    [from_ineq(0, -1, 2)]: (1, 0) is inside, (3, 0) is not, and (2, 0) is on
    the boundary. *)
Theorem contains_point_cases :
  (forall h p, valid h ->
     exists2 oriented, is_oriented h = Return oriented &
       match Point.u p with
       | Point.oo =>
           contains_point h p false
             = Return (isinstance_Line h || ~~ oriented)
           /\ contains_point h p true = Return (isinstance_Line h)
       | Point.Finite x =>
           let u := Radical.value x in
           let r := a h * (u ^+ 2 + Point.v p ^+ 2) + b h * u + c h in
           forall on_boundary,
             contains_point h p on_boundary
               = Return ((r == 0) || (~~ on_boundary && (0 < r)))
       end)
  /\ (exists2 l, from_ineq (0 : R) (-1) 2 = Return l &
        [/\ isinstance_Line l,
            contains_point l (Point.of_number 1 0) false = Return true,
            contains_point l (Point.of_number 3 0) false = Return false
          & contains_point l (Point.of_number 2 0) true = Return true]).
Proof.
split=> [h p ok|].
  have := valid_is_oriented ok.
  case oh: (is_oriented h) => [oriented|] // _; exists oriented => //.
  rewrite /contains_point; case: (Point.u p) => [x|] //=.
  by rewrite oh; case: (isinstance_Line h).
exists (Line 0 (-1) 2).
  by rewrite /from_ineq eqxx oppr_eq0 oner_eq0.
rewrite /contains_point /= /contains_ordinary /Point._plug_point_into_halfplane.
rewrite /Radical.value /=; split=> //; congr Return.
- by apply/orP; right; lra.
- by apply/negbTE; rewrite negb_or; apply/andP; split; [apply/eqP|]; lra.
- by apply/orP; left; apply/eqP; lra.
Qed.

(** C10. Containment on the boundary implies containment: if
    [contains_point(p, on_boundary=True)] returns true, so does
    [contains_point(p)], for any object of the three classes and any point,
    the point at infinity included. *)
Theorem contains_point_on_boundary_monotone h p :
  contains_point h p true = Return true ->
  contains_point h p false = Return true.
Proof.
rewrite /contains_point; case: (Point.u p) => [x|] /=.
  by rewrite /contains_ordinary /= orbF => -[->].
by case=> ->.
Qed.

(** C3, amended. [intersect_boundaries(h, h)]: the matrix of the
    coefficients [(a, b)] of the two arguments is singular; the call returns
    [None] when [h] is not a Line, and the point at infinity when it is. *)
Theorem intersect_boundaries_self h :
  determinant2 ((a h, b h), (a h, b h)) = 0
  /\ intersect_boundaries h h
     = if isinstance_Line h then Some (Point.Make Point.oo 0) else None.
Proof.
have det0 : determinant2 ((a h, b h), (a h, b h)) = 0.
  by rewrite /determinant2 /= mulrC subrr.
by rewrite /intersect_boundaries andbb det0 eqxx.
Qed.

(** [solve_right] returns the solution of the system. *)
Lemma solve_rightP (M : (R * R) * (R * R)) (y : R * R) :
  determinant2 M != 0 ->
  let x := solve_right M y in
  M.1.1 * x.1 + M.1.2 * x.2 = y.1 /\ M.2.1 * x.1 + M.2.2 * x.2 = y.2.
Proof.
case: M y => [[m11 m12] [m21 m22]] [y1 y2]; rewrite /solve_right /determinant2.
by move=> /= d0; split; field.
Qed.

(** The Line [from_ineq(0, -1, 2)]: oriented, from (2, 0) to infinity. *)
Lemma Line_0_m1_2 :
  let l : HalfPlane R := Line 0 (-1) 2 in
  [/\ is_oriented l = Return true, start l = Return (Point.of_number 2 0)
    & end_ l = Return (Point.Make Point.oo 0)].
Proof.
rewrite /= /Line_start /Line_end /Line_is_oriented /= oppr_lt0 ltr01.
by rewrite /div oppr_eq0 oner_eq0 /= invrN1 mulrN1 opprK.
Qed.

(** Two Lines meet at the point at infinity. *)
Lemma intersect_boundaries_Lines (x1 y1 z1 x2 y2 z2 : R) :
  intersect_boundaries (Line x1 y1 z1) (Line x2 y2 z2)
  = Some (Point.Make Point.oo 0).
Proof. by []. Qed.

(** *** The properties of a valid half-plane return *)

Lemma valid_contains_point h p on_boundary :
  valid h -> returns (contains_point h p on_boundary).
Proof.
move=> ok; rewrite /contains_point; case: (Point.u p) => [x|] //.
case: on_boundary => //=; case: (isinstance_Line h) => //.
by case: (is_oriented h) (valid_is_oriented ok).
Qed.

Lemma valid_Circle_4a2_neq0 (x y z : R) :
  valid (Circle x y z) -> 4 * x ^+ 2 != 0.
Proof. by case/andP=> x0 _; rewrite mulf_neq0 ?expf_neq0 // pnatr_eq0. Qed.

Lemma valid_Line_b_neq0 (x y z : R) : valid (Line x y z) -> y != 0.
Proof. by case/andP. Qed.

Lemma valid_start h : valid h -> returns (start h).
Proof.
case: h => x y z //= ok.
  rewrite /Line_start /div /= (negPf (valid_Line_b_neq0 (z := z) ok)).
  by case: (Line_is_oriented (Line x y z)).
rewrite /Circle_start /Circle_is_oriented /Circle_center /Circle_radius2.
rewrite /div /= (negPf (valid_Circle_a_neq0 ok)) /=.
by rewrite (negPf (valid_Circle_4a2_neq0 ok)).
Qed.

Lemma valid_end h : valid h -> returns (end_ h).
Proof.
case: h => x y z //= ok.
  rewrite /Line_end /div /= (negPf (valid_Line_b_neq0 (z := z) ok)).
  by case: (Line_is_oriented (Line x y z)).
rewrite /Circle_end /Circle_is_oriented /Circle_center /Circle_radius2.
rewrite /div /= (negPf (valid_Circle_a_neq0 ok)) /=.
by rewrite (negPf (valid_Circle_4a2_neq0 ok)).
Qed.

Lemma valid_point_inside h : valid h -> returns (_point_inside h).
Proof.
case: h => x y z //= ok.
  rewrite /Line_point_inside /Line_endpoint_real /Line_start /Line_end.
  rewrite /div /= (negPf (valid_Line_b_neq0 (z := z) ok)).
  by case: (Line_is_oriented (Line x y z)).
rewrite /Circle_point_inside /Circle_end /Circle_is_oriented /Circle_center.
rewrite /Circle_radius2 /div /= (negPf (valid_Circle_a_neq0 ok)) /=.
by case: (contains_ordinary (Circle x y z) _ _ _);
  rewrite //= (negPf (valid_Circle_4a2_neq0 ok)).
Qed.

Lemma valid_point_outside h : valid h -> returns (_point_outside h).
Proof.
case: h => x y z //= ok.
  rewrite /Line_point_outside /Line_endpoint_real /Line_start /Line_end.
  rewrite /div /= (negPf (valid_Line_b_neq0 (z := z) ok)).
  by case: (Line_is_oriented (Line x y z)).
rewrite /Circle_point_outside /Circle_start /Circle_is_oriented /Circle_center.
rewrite /Circle_radius2 /div /= (negPf (valid_Circle_a_neq0 ok)) /=.
by case: (contains_ordinary (Circle x y z) _ _ _);
  rewrite //= (negPf (valid_Circle_4a2_neq0 ok)).
Qed.

(** *** Clipping *)

Lemma returnsP (T : Type) (m : result T) :
  returns m -> exists x, m = Return x.
Proof. by case: m => [x|e] // _; exists x. Qed.

Variable CCW : Point.t R -> Point.t R -> Point.t R -> bool.

(** C5. Clipping an edge that is not ideal, by a valid half-plane: the
    edge itself when both endpoints are contained, nothing when neither is,
    and otherwise one new edge with the same half-plane, from the contained
    endpoint to [intersect_boundaries(self, edge.halfplane)] (or from there
    to the contained endpoint when that is the end). *)
Theorem intersect_edge_real h (e : Edge.t R) (owner : HalfPlane R)
    (p1 p2 : Point.t R) :
  valid h ->
  Edge.halfplane e = Some owner ->
  Edge.start e = Some p1 -> Edge.end_ e = Some p2 ->
  exists contains_start contains_end,
    [/\ contains_point h p1 false = Return contains_start,
        contains_point h p2 false = Return contains_end
      & intersect_edge CCW h e
        = Return
            match contains_start, contains_end with
            | true, true => [:: e]
            | false, false => [::]
            | true, false =>
                [:: Edge.Make (Some owner) (Some p1)
                      (intersect_boundaries h owner)]
            | false, true =>
                [:: Edge.Make (Some owner) (intersect_boundaries h owner)
                      (Some p2)]
            end].
Proof.
move=> ok eh es ee.
have [cs Hcs] := returnsP (valid_contains_point p1 false ok).
have [ce Hce] := returnsP (valid_contains_point p2 false ok).
exists cs, ce; split=> //.
rewrite /intersect_edge /Edge.is_ideal eh /_intersect_edge_real es ee /=.
by rewrite Hcs Hce /= eh; case: cs ce {Hcs Hce} => [] [].
Qed.

(** C6. Clipping an ideal edge by a valid half-plane. Both endpoints
    contained: the edge itself if [CCW(edge.start, edge.end, outside)], else
    the two arcs [(edge.start, self.start)] and [(self.end, edge.end)]. One
    endpoint contained: the arc [(edge.start, self.start)] if it is the
    start, the arc [(self.end, edge.end)] if it is the end. None contained:
    nothing if [CCW(edge.start, edge.end, inside)], else the arc
    [(self.end, self.start)]. *)
Theorem intersect_edge_ideal h (e : Edge.t R) (p1 p2 : Point.t R) :
  valid h ->
  Edge.is_ideal e ->
  Edge.start e = Some p1 -> Edge.end_ e = Some p2 ->
  exists contains_start contains_end,
    [/\ contains_point h p1 false = Return contains_start,
        contains_point h p2 false = Return contains_end
      & exists self_start self_end,
    [/\ start h = Return self_start, end_ h = Return self_end
      & exists inside outside,
    [/\ _point_inside h = Return inside, _point_outside h = Return outside
      & intersect_edge CCW h e
        = Return
            match contains_start, contains_end with
            | true, true =>
                if CCW p1 p2 outside then [:: e]
                else [:: Edge.Make None (Some p1) (Some self_start);
                         Edge.Make None (Some self_end) (Some p2)]
            | true, false => [:: Edge.Make None (Some p1) (Some self_start)]
            | false, true => [:: Edge.Make None (Some self_end) (Some p2)]
            | false, false =>
                if CCW p1 p2 inside then [::]
                else [:: Edge.Make None (Some self_end) (Some self_start)]
            end]]].
Proof.
move=> ok ideal es ee.
have [cs Hcs] := returnsP (valid_contains_point p1 false ok).
have [ce Hce] := returnsP (valid_contains_point p2 false ok).
have [hs Hs] := returnsP (valid_start ok).
have [he He] := returnsP (valid_end ok).
have [pin Hin] := returnsP (valid_point_inside ok).
have [pout Hout] := returnsP (valid_point_outside ok).
exists cs, ce; split=> //; exists hs, he; split=> //.
exists pin, pout; split=> //.
rewrite /intersect_edge ideal /_intersect_edge_ideal es ee /= Hcs Hce /=.
case: cs ce {Hcs Hce} => [] [] /=; rewrite ?Hout ?Hin ?Hs ?He //=.
  by case: (CCW p1 p2 pout) => //; rewrite Hs He.
by case: (CCW p1 p2 pin) => //; rewrite He Hs.
Qed.

End GeometryProperties.

(** The Line [from_ineq(0, -1, 2)] meets itself at the point at infinity,
    not nowhere. *)
Lemma intersect_boundaries_self_Line :
  let l : HalfPlane algR := Line 0 (-1) 2 in
  [/\ from_ineq 0 (-1) 2 = Return l,
      intersect_boundaries l l = Some (Point.Make Point.oo 0)
    & intersect_boundaries l l <> None].
Proof. by split=> //; rewrite /from_ineq eqxx oppr_eq0 oner_eq0. Qed.

Lemma contains_point_cases_witness :
  let l : HalfPlane algR := Line 0 (-1) 2 in
  valid l /\ contains_point l (Point.of_number 1 0) false = Return true.
Proof.
have ok : valid (Line (0 : algR) (-1) 2) by rewrite /= eqxx oppr_eq0 oner_eq0.
split=> //.
have [_ _ /= ->] := (contains_point_cases algR).1 _ (Point.of_number 1 0) ok.
by rewrite /Radical.value /=; congr Return; apply/orP; right; lra.
Defined.

Lemma contains_point_on_boundary_monotone_witness :
  let l : HalfPlane algR := Line 0 (-1) 2 in
  contains_point l (Point.of_number 2 0) true = Return true
  /\ contains_point l (Point.of_number 2 0) false = Return true.
Proof.
have on : contains_point (Line (0 : algR) (-1) 2) (Point.of_number 2 0) true
          = Return true.
  rewrite /contains_point /= /contains_ordinary.
  rewrite /Point._plug_point_into_halfplane /Radical.value /=.
  by congr Return; apply/orP; left; apply/eqP; lra.
by split=> //; apply: contains_point_on_boundary_monotone.
Defined.

Lemma intersect_edge_real_witness :
  let h : HalfPlane algR := Line 0 (-1) 2 in
  let owner : HalfPlane algR := Line 0 1 0 in
  let p1 := Point.of_number 1 1 in
  let p2 := Point.of_number 3 1 in
  let e := Edge.Make (Some owner) (Some p1) (Some p2) in
  valid h /\
  exists contains_start contains_end,
    [/\ contains_point h p1 false = Return contains_start,
        contains_point h p2 false = Return contains_end
      & intersect_edge (fun _ _ _ => true) h e
        = Return
            match contains_start, contains_end with
            | true, true => [:: e]
            | false, false => [::]
            | true, false =>
                [:: Edge.Make (Some owner) (Some p1)
                      (intersect_boundaries h owner)]
            | false, true =>
                [:: Edge.Make (Some owner) (intersect_boundaries h owner)
                      (Some p2)]
            end].
Proof.
have ok : valid (Line (0 : algR) (-1) 2) by rewrite /= eqxx oppr_eq0 oner_eq0.
by split=> //; apply: intersect_edge_real.
Defined.

Lemma intersect_edge_ideal_witness :
  let h : HalfPlane algR := Line 0 (-1) 2 in
  let p1 := Point.of_number 1 0 in
  let p2 := Point.of_number 3 0 in
  let e := Edge.Make None (Some p1) (Some p2) in
  valid h /\ Edge.is_ideal e /\
  exists edges, intersect_edge (fun _ _ _ => true) h e = Return edges.
Proof.
have ok : valid (Line (0 : algR) (-1) 2) by rewrite /= eqxx oppr_eq0 oner_eq0.
split=> //; split=> //.
have [cs [ce [_ _ [hs [he [_ _ [pin [pout [_ _ ->]]]]]]]]] :=
  @intersect_edge_ideal algR (fun _ _ _ => true) _
    (Edge.Make None (Some (Point.of_number 1 0)) (Some (Point.of_number 3 0)))
    _ _ ok isT erefl erefl.
by eexists.
Defined.

(** ** Containers *)

Section ContainerProperties.

Variables (K : eqType) (V : eqType).

Lemma filterM_Return (p : V -> result bool) (q : V -> bool) (s : seq V) :
  {in s, forall x, p x = Return (q x)} ->
  filterM p s = Return (filter q s).
Proof.
elim: s => [|x s IHs] //= pq.
rewrite pq ?mem_head //= IHs //= => y ys.
by apply: pq; rewrite in_cons ys orbT.
Qed.

End ContainerProperties.

(** ** Labels *)

Lemma tuple_lt_irreflexive (e : label) : tuple_lt e e = false.
Proof. by rewrite /tuple_lt !ltnn andbF. Qed.

Lemma tuple_lt_total (e1 e2 : label) :
  e1 != e2 -> tuple_lt e2 e1 = ~~ tuple_lt e1 e2.
Proof.
case: e1 e2 => [i1 j1] [i2 j2]; rewrite /tuple_lt /= xpair_eqE.
case: (ltngtP i1 i2) => //= _.
by case: (ltngtP j1 j2).
Qed.

Lemma product_range_uniq (n : nat) : uniq (Triangulation.product_range n).
Proof. by apply: allpairs_uniq; rewrite ?iota_uniq // => -[? ?] [? ?]. Qed.

Lemma size_product_range (n : nat) :
  size (Triangulation.product_range n) = (n * 3)%N.
Proof. by rewrite size_allpairs !size_iota. Qed.

Lemma pred_mod3_add2 (l : nat) : pred_mod3 l = ((l + 2) %% 3)%N.
Proof.
rewrite /pred_mod3.
have -> : l%:Z - 1 = (-1) * 3%:Z + (l + 2)%N%:Z by rewrite PoszD; ring.
by rewrite modzMDl modz_nat.
Qed.

(** ** The gluing map *)

Section GluingProperties.

Variable R : realFieldType.

Variable t : Triangulation.t R.

Let pairs := Triangulation.product_range (size (Triangulation.triangles t)).

Hypothesis involution : Triangulation.fixed_point_free_involution t.

Lemma involution_image (e : label) :
  e \in pairs ->
  [/\ lookup (Triangulation.gluings t) e = Return (Triangulation.image t e),
      Triangulation.image t e != e,
      Triangulation.image t e \in pairs
    & Triangulation.image t (Triangulation.image t e) = e].
Proof.
move/(allP involution); rewrite /Triangulation.image.
case: (lookup _ e) => // e' /and3P[ne mem].
by case: (lookup _ e') => // e'' /eqP->.
Qed.

Lemma perm_image : perm_eq [seq Triangulation.image t e | e <- pairs] pairs.
Proof.
apply: uniq_perm; rewrite ?product_range_uniq //.
  rewrite map_inj_in_uniq ?product_range_uniq // => e1 e2 m1 m2 eq12.
  have [_ _ _ <-] := involution_image m1.
  by have [_ _ _ <-] := involution_image m2; rewrite eq12.
move=> e; apply/mapP/idP => [[e0 m0 ->]|me].
  by have [] := involution_image m0.
have [_ _ mi ii] := involution_image me.
by exists (Triangulation.image t e).
Qed.

Lemma edges_filter :
  Triangulation.edges t
  = Return [seq e <- pairs | tuple_lt e (Triangulation.image t e)].
Proof.
rewrite /Triangulation.edges; apply: filterM_Return => e me.
by have [-> _ _ _] := involution_image me.
Qed.

Lemma count_smaller :
  (count (fun e => tuple_lt e (Triangulation.image t e)) pairs).*2
  = size pairs.
Proof.
set q := fun e => tuple_lt e (Triangulation.image t e).
rewrite -addnn -(count_predC q pairs); congr (_ + _)%N.
rewrite -(permP perm_image q) count_map.
apply: eq_in_count => e me /=; rewrite /q.
have [_ ne _ ->] := involution_image me.
by rewrite -tuple_lt_total // eq_sym.
Qed.

End GluingProperties.

(** C9. When the gluing map is an involution without fixed point on the
    pairs [(triangle, edge)], [edges()] returns, without repetition, one
    pair of each glued couple: the smaller of a pair and its image in the
    order of tuples. Its length is [3n/2]. *)
Theorem edges_representatives (R : realFieldType) (t : Triangulation.t R) :
  Triangulation.fixed_point_free_involution t ->
  let n := size (Triangulation.triangles t) in
  exists2 reps, Triangulation.edges t = Return reps &
    [/\ uniq reps,
        {subset reps <= Triangulation.product_range n},
        (forall e e', e \in Triangulation.product_range n ->
           lookup (Triangulation.gluings t) e = Return e' ->
           [/\ (e \in reps) = tuple_lt e e', (e' \in reps) = tuple_lt e' e
             & (e \in reps) != (e' \in reps)])
      & (size reps).*2 = (3 * n)%N /\ size reps = (3 * n %/ 2)%N].
Proof.
move=> inv n; rewrite (edges_filter inv) -/n.
set reps := filter _ _; exists reps => //.
have size2 : (size reps).*2 = (3 * n)%N.
  by rewrite size_filter (count_smaller inv) size_product_range mulnC.
split; first by rewrite filter_uniq ?product_range_uniq.
- by move=> e; rewrite mem_filter => /andP[].
- move=> e e' me; have [-> ne mi ii] := involution_image inv me => -[<-].
  rewrite !mem_filter me mi ii !andbT; split=> //.
  by rewrite (tuple_lt_total ne); case: tuple_lt.
- by split=> //; rewrite -size2 -muln2 mulnK.
Qed.

(** ** Hinges *)

Section HingeProperties.

Variable R : realFieldType.

Lemma determinant3_det (M : (R * R * R) * (R * R * R) * (R * R * R)) :
  determinant3 M = \det (matrix3 M).
Proof.
case: M => [[[[m00 m01] m02] [[m10 m11] m12]] [[m20 m21] m22]].
rewrite /determinant3 /matrix3.
rewrite (expand_det_row _ ord0) !big_ord_recl big_ord0 /cofactor.
rewrite !(expand_det_row _ ord0) !big_ord_recl !big_ord0 /cofactor.
rewrite !det_mx11 !mxE /= /bump /= !add0n !expr0 !expr1 expr2.
by ring.
Qed.

(** C2, amended. [halfplane()] computes [a], [b], [c] as the determinant
    with third column [y^2], twice the determinant with third column [x*y]
    and the determinant with third column [x^2], and returns the object
    [HalfPlane(a, b, c)] of the base class: it does not call [from_ineq]
    and it raises for no triple. *)
Theorem halfplane_coefficients (w0 w1 w2 : vector R) :
  let M f := matrix3 ((w0.1, w0.2, f w0), (w1.1, w1.2, f w1),
                      (w2.1, w2.2, f w2)) in
  Hinge.halfplane (Hinge.Make (w0, w1, w2))
  = BaseHalfPlane (\det (M (fun w => w.2 ^+ 2)))
                  (2 * \det (M (fun w => w.1 * w.2)))
                  (\det (M (fun w => w.1 ^+ 2))).
Proof. by rewrite /Hinge.halfplane !determinant3_det. Qed.

(** *** list(set(...)) *)





End HingeProperties.


(** C8. [is_delaunay()] returns true iff [hinges()] returns and every hinge
    has [incircle_test() >= 0]; [is_delaunay(strict=True)] likewise with
    [incircle_test() > 0]; and [incircle_test()] is the determinant of the
    matrix with rows [x, y, x^2 + y^2] for the three vectors of the hinge.
    The hinges are those of the edges that [edges()] returns, one for each. *)
Theorem is_delaunay_incircle (R : realFieldType) (t : Triangulation.t R) :
  Triangulation.fixed_point_free_involution t ->
  [/\ exists2 reps, Triangulation.edges t = Return reps
        & Triangulation.hinges t = mapM (Triangulation._hinge t) reps,
      Triangulation.is_delaunay t false = Return true
        <-> (exists2 hs, Triangulation.hinges t = Return hs
               & forall hinge, hinge \in hs -> 0 <= Hinge.incircle_test hinge),
      Triangulation.is_delaunay t true = Return true
        <-> (exists2 hs, Triangulation.hinges t = Return hs
               & forall hinge, hinge \in hs -> 0 < Hinge.incircle_test hinge),
      (forall hs, Triangulation.hinges t = Return hs ->
         Triangulation.is_delaunay t false
           = Return (all (fun hinge => 0 <= Hinge.incircle_test hinge) hs)
         /\ Triangulation.is_delaunay t true
           = Return (all (fun hinge => 0 < Hinge.incircle_test hinge) hs))
    & forall w0 w1 w2 : vector R,
        Hinge.incircle_test (Hinge.Make (w0, w1, w2))
        = \det (matrix3 ((w0.1, w0.2, w0.1 ^+ 2 + w0.2 ^+ 2),
                         (w1.1, w1.2, w1.1 ^+ 2 + w1.2 ^+ 2),
                         (w2.1, w2.2, w2.1 ^+ 2 + w2.2 ^+ 2)))].
Proof.
move=> inv; rewrite /Triangulation.is_delaunay; split.
- exists [seq e <- Triangulation.product_range
                     (size (Triangulation.triangles t))
              | tuple_lt e (Triangulation.image t e)].
    exact: edges_filter.
  by rewrite /Triangulation.hinges (edges_filter inv).
- case: (Triangulation.hinges t) => [hs|e] /=; last by split=> // -[].
  split=> [[/allP ok]|[_ [<-] /allP -> //]]; by exists hs.
- case: (Triangulation.hinges t) => [hs|e] /=; last by split=> // -[].
  split=> [[/allP ok]|[_ [<-] /allP -> //]]; by exists hs.
- by move=> hs ->.
- by move=> w0 w1 w2; rewrite /Hinge.incircle_test determinant3_det.
Qed.

(** ** The square torus *)

(** Its two triangles close up and are positively oriented. *)
Lemma square_torus_triangles :
  all (fun tri => returns (Triangle.init (Triangle.edges tri)))
      (Triangulation.triangles square_torus).
Proof. by vm_compute. Qed.

Lemma square_torus_involution :
  Triangulation.fixed_point_free_involution square_torus.
Proof. by vm_compute. Qed.

Lemma square_torus_edges :
  Triangulation.edges square_torus = Return [:: (0, 0); (0, 1); (0, 2)]%N.
Proof. by vm_compute. Qed.

Lemma square_torus_hinges : returns (Triangulation.hinges square_torus).
Proof. by vm_compute. Qed.

(** The diagonal has incircle test 0: Delaunay, not strictly. *)
Lemma square_torus_is_delaunay :
  Triangulation.is_delaunay square_torus false = Return true
  /\ Triangulation.is_delaunay square_torus true = Return false.
Proof. by split; vm_compute. Qed.

(** For three vectors on a line the triple is (0, 0, 0): [from_ineq] raises
    on it, [halfplane()] returns [HalfPlane(0, 0, 0)]. *)
Lemma halfplane_flat_hinge :
  let h := Hinge.halfplane flat_hinge in
  [/\ h = BaseHalfPlane 0 0 0,
      from_ineq (a h) (b h) (c h) = Raise (ValueError DegenerateInequality)
    & Return h <> from_ineq (a h) (b h) (c h)].
Proof.
have -> : Hinge.halfplane flat_hinge = BaseHalfPlane 0 0 0.
  by rewrite /Hinge.halfplane /determinant3 /=; congr BaseHalfPlane; ring.
by rewrite /= /from_ineq !eqxx.
Qed.

Lemma edges_representatives_witness :
  Triangulation.fixed_point_free_involution square_torus
  /\ (exists2 reps, Triangulation.edges square_torus = Return reps
        & (size reps).*2 = 6%N).
Proof.
split; first exact: square_torus_involution.
have [reps -> [_ _ _ [size2 _]]] :=
  edges_representatives square_torus_involution.
by exists reps.
Defined.


Lemma is_delaunay_incircle_witness :
  Triangulation.fixed_point_free_involution square_torus
  /\ (exists2 hs, Triangulation.hinges square_torus = Return hs
        & forall hinge, hinge \in hs -> 0 <= Hinge.incircle_test hinge).
Proof.
split; first exact: square_torus_involution.
have [_ delaunay _ _ _] := is_delaunay_incircle square_torus_involution.
by apply/delaunay; case: square_torus_is_delaunay.
Defined.

(** * Further properties *)


Section HalfPlaneMore.
Variable R : rcfType.
Implicit Types (h : HalfPlane R) (p : Point.t R).

Lemma value_of_number (x : R) : Radical.value (Radical.Make x 0 0) = x.
Proof. by rewrite /Radical.value /= mul0r addr0. Qed.

Lemma Circle_center_plug (x y z : R) :
  x != 0 ->
  x * ((- y / (2 * x)) ^+ 2 + 0 ^+ 2) + y * (- y / (2 * x)) + z
  = - (y ^+ 2 - 4 * x * z) / (4 * x).
Proof. by move=> x0; field. Qed.

Lemma valid_Circle_is_oriented (x y z : R) :
  valid (Circle x y z) -> is_oriented (Circle x y z) = Return (x < 0).
Proof.
move=> ok; have /andP[x0 disc] := ok.
rewrite /= /Circle_is_oriented /Circle_center /div /=.
rewrite (negPf (valid_Circle_a_neq0 ok)) /= /contains_ordinary.
rewrite /Point._plug_point_into_halfplane value_of_number /=.
rewrite Circle_center_plug //; congr Return.
rewrite eq_sym -le_eqVlt mulNr oppr_ge0 pmulr_rle0 // invr_le0.
by rewrite pmulr_rle0 ?ltr0n // [RHS]lt_neqAle x0.
Qed.

Lemma valid_Line_is_oriented (x y z : R) :
  is_oriented (Line x y z) = Return (y < 0).
Proof. by []. Qed.

(** X1. For a half-plane that [from_ineq] builds, [is_oriented] returns: for a
    Line it is [b < 0], for a Circle it is [a < 0] (the centre of the circle
    lies in the half-plane exactly then). So [contains_point] at infinity
    returns true for a Line and, for a Circle, exactly when [a > 0]. *)
Theorem valid_orientation h (v : R) :
  valid h ->
  is_oriented h = Return (if isinstance_Line h then b h < 0 else a h < 0)
  /\ contains_point h (Point.Make Point.oo v) false
     = Return (isinstance_Line h || (0 < a h)).
Proof.
case: h => x y z // ok.
rewrite /contains_point valid_Circle_is_oriented //=; split=> //.
by case/andP: ok => x0 _; rewrite -leNgt le_eqVlt eq_sym (negPf x0).
Qed.

(** X2. The endpoints of a valid Line are the point [-c/b] of the real axis and
    the point at infinity: [start] is the real one when [b < 0] and [end] is
    the real one otherwise. Both lie on the boundary:
    [contains_point(p, on_boundary=True)] returns true for each. *)
Theorem Line_endpoints h :
  isinstance_Line h -> valid h ->
  let p := Point.of_number (- c h / b h) 0 in
  let inf := Point.Make Point.oo 0 in
  [/\ start h = Return (if b h < 0 then p else inf),
      end_ h = Return (if b h < 0 then inf else p),
      contains_point h p true = Return true
    & contains_point h inf true = Return true].
Proof.
case: h => x y z //= _ /andP[/eqP-> y0].
rewrite /Line_start /Line_end /Line_is_oriented /div /= (negPf y0).
split=> //; try by case: ifP.
rewrite /contains_point /= /contains_ordinary.
rewrite /Point._plug_point_into_halfplane value_of_number /= orbF.
by congr Return; apply/eqP; field.
Qed.


Lemma Circle_start_end (x y z : R) :
  valid (Circle x y z) ->
  let A := - y / (2 * x) in
  let C := (y ^+ 2 - 4 * x * z) / (4 * x ^+ 2) in
  Circle_start (Circle x y z)
  = Return (Point.Make
              (Point.Finite (Radical.Make A (if x < 0 then 1 else -1) C)) 0)
  /\ Circle_end (Circle x y z)
  = Return (Point.Make
              (Point.Finite (Radical.Make A (if x < 0 then -1 else 1) C)) 0).
Proof.
move=> ok; have := valid_Circle_is_oriented ok.
rewrite /= /Circle_start /Circle_end /Circle_radius2 => ->.
rewrite /Circle_center /div (negPf (valid_Circle_a_neq0 ok)) /=.
by rewrite (negPf (valid_Circle_4a2_neq0 ok)).
Qed.

(** The value of the quadratic at [A + B*s] and at [A + 1 + B*s], for the
    centre [A] and a root [s] of the squared radius. *)
Lemma Circle_plug_root (x y z s B : R) :
  x != 0 -> s ^+ 2 = (y ^+ 2 - 4 * x * z) / (4 * x ^+ 2) -> B ^+ 2 = 1 ->
  let A := - y / (2 * x) in
  x * ((A + B * s) ^+ 2 + 0 ^+ 2) + y * (A + B * s) + z = 0
  /\ x * ((A + 1 + B * s) ^+ 2 + 0 ^+ 2) + y * (A + 1 + B * s) + z
     = x * (1 + 2 * B * s).
Proof.
move=> x0 ss BB A.
have zE : z = (y ^+ 2 - 4 * x ^+ 2 * s ^+ 2) / (4 * x) by rewrite ss; field.
have -> : x * ((A + B * s) ^+ 2 + 0 ^+ 2) + y * (A + B * s) + z
          = x * s ^+ 2 * (B ^+ 2 - 1).
  by rewrite [in LHS]zE /A; field.
have -> : x * ((A + 1 + B * s) ^+ 2 + 0 ^+ 2) + y * (A + 1 + B * s) + z
          = x * (1 + 2 * B * s) + x * s ^+ 2 * (B ^+ 2 - 1).
  by rewrite [in LHS]zE /A; field.
by rewrite BB subrr mulr0 addr0.
Qed.


Lemma Line_plug (y z t : R) :
  y != 0 ->
  0 * ((- z / y + t) ^+ 2 + 0 ^+ 2) + y * (- z / y + t) + z = y * t.
Proof. by move=> y0; field. Qed.

Lemma Circle_radius_gt0 (x y z : R) :
  valid (Circle x y z) ->
  let s := Num.sqrt ((y ^+ 2 - 4 * x * z) / (4 * x ^+ 2)) in
  0 < s /\ s ^+ 2 = (y ^+ 2 - 4 * x * z) / (4 * x ^+ 2).
Proof.
case/andP=> x0 disc s.
have C0 : 0 < (y ^+ 2 - 4 * x * z) / (4 * x ^+ 2).
  apply: divr_gt0 => //; apply: mulr_gt0; first by rewrite ltr0n.
  by rewrite lt0r expf_neq0 // sqr_ge0.
by rewrite /s sqrtr_gt0 sqr_sqrtr // ltW.
Qed.

(** X3. For a valid Circle, [start] and [end] return two ordinary points of
    height 0 that lie on the boundary ([contains_point(p, on_boundary=True)]
    is true for both) and are distinct: [end] is to the left of [start] when
    [a < 0], and to the right otherwise. *)
Theorem Circle_endpoints h :
  isinstance_Circle h -> valid h ->
  exists xs xe : Radical.t R,
    [/\ start h = Return (Point.Make (Point.Finite xs) 0),
        end_ h = Return (Point.Make (Point.Finite xe) 0),
        contains_point h (Point.Make (Point.Finite xs) 0) true = Return true,
        contains_point h (Point.Make (Point.Finite xe) 0) true = Return true
      & if a h < 0 then Radical.value xe < Radical.value xs
        else Radical.value xs < Radical.value xe].
Proof.
case: h => x y z // _ ok.
rewrite /=; have [-> ->] := Circle_start_end ok; do 2!eexists; split=> //.
- rewrite /contains_point /= /contains_ordinary orbF.
  rewrite /Point._plug_point_into_halfplane /Radical.value /=.
  have [s0 ss] := Circle_radius_gt0 ok; have x0 := proj1 (andP ok).
  have BB : (if x < 0 then 1 else -1) ^+ 2 = 1 :> R.
    by case: ifP; rewrite ?sqrrN expr1n.
  by have [-> _] := Circle_plug_root x0 ss BB; rewrite eqxx.
- rewrite /contains_point /= /contains_ordinary orbF.
  rewrite /Point._plug_point_into_halfplane /Radical.value /=.
  have [s0 ss] := Circle_radius_gt0 ok; have x0 := proj1 (andP ok).
  have BB : (if x < 0 then -1 else 1) ^+ 2 = 1 :> R.
    by case: ifP; rewrite ?sqrrN expr1n.
  by have [-> _] := Circle_plug_root x0 ss BB; rewrite eqxx.
- have [s0 _] := Circle_radius_gt0 ok.
  rewrite /Radical.value /=; move: (Num.sqrt _ : R) s0 => s s0.
  by case: (x < 0); rewrite ltrD2l; lra.
Qed.

Lemma Circle_contains_center (x y z : R) :
  valid (Circle x y z) ->
  contains_ordinary (Circle x y z) (Radical.Make (- y / (2 * x)) 0 0) 0 false
  = (x < 0).
Proof.
move=> ok; have := valid_Circle_is_oriented ok.
rewrite /= /Circle_is_oriented /Circle_center /div.
by rewrite (negPf (valid_Circle_a_neq0 ok)) /= => -[].
Qed.

Lemma Circle_contains_beyond (x y z : R) :
  valid (Circle x y z) ->
  contains_ordinary (Circle x y z)
    (Radical.Make (- y / (2 * x) + 1) 1 ((y ^+ 2 - 4 * x * z) / (4 * x ^+ 2)))
    0 false
  = (0 < x).
Proof.
move=> ok; have [s0 ss] := Circle_radius_gt0 ok; have x0 := proj1 (andP ok).
rewrite /contains_ordinary /Point._plug_point_into_halfplane /Radical.value /=.
have [_ ->] := Circle_plug_root x0 ss (expr1n R 2).
move: (Num.sqrt _ : R) s0 {ss} => s s0.
have pos : 0 < 1 + 2 * 1 * s by lra.
by rewrite eq_sym -le_eqVlt pmulr_lge0 // le_eqVlt eq_sym (negPf x0).
Qed.

(** X4. For a valid half-plane [_point_inside] and [_point_outside] return
    points that deserve their names: [contains_point] is true at the first
    and false at the second. *)
Theorem witness_points h :
  valid h ->
  exists inside outside,
    [/\ _point_inside h = Return inside, _point_outside h = Return outside,
        contains_point h inside false = Return true
      & contains_point h outside false = Return false].
Proof.
case: h => x y z // ok.
  case/andP: ok => /eqP-> y0.
  rewrite /= /Line_point_inside /Line_point_outside /Line_endpoint_real.
  rewrite /Line_start /Line_end /Line_is_oriented /div /= (negPf y0).
  have [yneg|yge] := ltP y 0; rewrite /=; do 2!eexists; split=> //;
    rewrite /contains_point /= /contains_ordinary;
    rewrite /Point._plug_point_into_halfplane value_of_number /=;
    rewrite Line_plug //; congr Return.
  - by apply/orP; right; lra.
  - by apply/negbTE; rewrite negb_or -leNgt; apply/andP; split; lra.
  - by have ypos : 0 < y by [rewrite lt0r y0]; apply/orP; right; lra.
  - have ypos : 0 < y by rewrite lt0r y0.
    by apply/negbTE; rewrite negb_or -leNgt; apply/andP; split; lra.
have [startE endE] := Circle_start_end ok.
rewrite /= /Circle_point_inside /Circle_point_outside.
have := valid_Circle_is_oriented ok; rewrite /= => ->.
rewrite startE endE /Circle_center /div (negPf (valid_Circle_a_neq0 ok)) /=.
have x0 := proj1 (andP ok).
have [xneg|xge] := ltP x 0; rewrite /=; do 2!eexists; split=> //;
  rewrite /contains_point /=; congr Return.
- by rewrite Circle_contains_center.
- by rewrite Circle_contains_beyond // lt_gtF.
- by rewrite Circle_contains_beyond // lt0r x0.
- by rewrite Circle_contains_center // ltNge xge.
Qed.

End HalfPlaneMore.

Section TriangleMore.
Variable R : realFieldType.
Implicit Types (M : (R * R) * (R * R)) (w : vector R).

Lemma getitem_nth (V : Type) (x0 : V) (s : seq V) (i : nat) :
  getitem s i = if (i < size s)%N then Return (nth x0 s i) else Raise IndexError.
Proof. by elim: s i => [|x s IHs] [|i] //=; rewrite IHs. Qed.

Lemma getitem_map (V W : Type) (f : V -> W) (s : seq V) (i : nat) :
  getitem (map f s) i = (x <~ getitem s i ;; Return (f x)).
Proof. by elim: s i => [|x s IHs] [|i] //=. Qed.

Lemma Triangle_init_spec (edges : seq (vector R)) :
  [/\ forall t, Triangle.init edges = Return t <->
        [/\ t = Triangle.Make edges, vsum edges = (0, 0), (2 < size edges)%N
          & 0 < determinant2 (nth (0, 0) edges 0, vneg (nth (0, 0) edges 2))],
      vsum edges != (0, 0) ->
        Triangle.init edges = Raise (ValueError SidesDoNotCloseUp),
      vsum edges = (0, 0) -> (size edges < 3)%N ->
        Triangle.init edges = Raise IndexError
    & vsum edges = (0, 0) -> (2 < size edges)%N ->
      determinant2 (nth (0, 0) edges 0, vneg (nth (0, 0) edges 2)) <= 0 ->
        Triangle.init edges = Raise (ValueError SidesNotOriented)].
Proof.
rewrite /Triangle.init !(getitem_nth (0, 0)).
case: (vsum edges =P (0, 0)) => [sum0|/eqP nsum] /=; last first.
  split=> // [t|e|e]; try by rewrite e eqxx in nsum.
  by split=> // -[_ e]; rewrite e eqxx in nsum.
case: edges sum0 => [|e0 [|e1 [|e2 es]]] sum0 /=.
- by split=> // t; split=> // -[].
- by split=> // t; split=> // -[].
- by split=> // t; split=> // -[].
case: leP => [neg|pos]; split=> // t; split=> //.
- by case.
- by case=> <-.
- by case=> ->.
Qed.


Lemma mulmv0 M : mulmv M (0, 0) = (0, 0).
Proof. by rewrite /mulmv /= !mulr0 addr0. Qed.

Lemma mulmvD M w1 w2 : mulmv M (vadd w1 w2) = vadd (mulmv M w1) (mulmv M w2).
Proof. by rewrite /mulmv /vadd /=; congr pair; ring. Qed.

Lemma mulmvN M w : mulmv M (vneg w) = vneg (mulmv M w).
Proof. by rewrite /mulmv /vneg /=; congr pair; ring. Qed.

Lemma vsum_map_mulmv M (s : seq (vector R)) :
  vsum [seq mulmv M e | e <- s] = mulmv M (vsum s).
Proof. by elim: s => [|e s IHs] /=; rewrite ?mulmv0 // IHs mulmvD. Qed.

Lemma determinant2_mulmv M w1 w2 :
  determinant2 (mulmv M w1, mulmv M w2)
  = determinant2 M * determinant2 (w1, w2).
Proof. by rewrite /determinant2 /mulmv /=; ring. Qed.

Lemma Triangle_validP (t : Triangle.t R) :
  reflect [/\ vsum (Triangle.edges t) = (0, 0), (2 < size (Triangle.edges t))%N
            & 0 < determinant2 (nth (0, 0) (Triangle.edges t) 0,
                                vneg (nth (0, 0) (Triangle.edges t) 2))]
          (Triangle_valid t).
Proof.
have [iffT _ _ _] := Triangle_init_spec (Triangle.edges t).
rewrite /Triangle_valid; apply: (iffP idP) => [|[sum0 size3 pos]].
  by case init_t: (Triangle.init _) => [t'|] // _; have [] := (iffT t').1 init_t.
have -> // : Triangle.init (Triangle.edges t)
            = Return (Triangle.Make (Triangle.edges t)).
by apply/iffT.
Qed.

Lemma Triangle_apply_matrix_spec (t : Triangle.t R) M :
  Triangle_valid t ->
  Triangle_apply_matrix t M
  = if 0 < determinant2 M
    then Return (Triangle.Make [seq mulmv M e | e <- Triangle.edges t])
    else Raise (ValueError SidesNotOriented).
Proof.
case/Triangle_validP => sum0 size3 pos.
have [iffT _ _ neg] := Triangle_init_spec [seq mulmv M e | e <- Triangle.edges t].
have det_image : determinant2 (nth (0, 0) [seq mulmv M e | e <- Triangle.edges t] 0,
                   vneg (nth (0, 0) [seq mulmv M e | e <- Triangle.edges t] 2))
                 = determinant2 M
                   * determinant2 (nth (0, 0) (Triangle.edges t) 0,
                                   vneg (nth (0, 0) (Triangle.edges t) 2)).
  have size1 := leq_ltn_trans (leq0n 2) size3.
  rewrite !(nth_map (0, 0)) //.
  by rewrite -mulmvN determinant2_mulmv.
have sum_image : vsum [seq mulmv M e | e <- Triangle.edges t] = (0, 0).
  by rewrite vsum_map_mulmv sum0 mulmv0.
rewrite /Triangle_apply_matrix; case: ltP => detM.
  by apply/iffT; split; rewrite ?size_map // det_image mulr_gt0.
by apply: neg; rewrite ?size_map // det_image mulr_le0_ge0 // ltW.
Qed.

End TriangleMore.

Section ApplyMatrixMore.
Variable R : realFieldType.
Implicit Types (M : (R * R) * (R * R)) (w : vector R).
Implicit Types (t : Triangulation.t R) (tri : Triangle.t R).

Lemma solve_right_mulmv M w :
  determinant2 M != 0 -> solve_right M (mulmv M w) = w.
Proof.
case: M w => [[m11 m12] [m21 m22]] [x1 x2].
rewrite /solve_right /mulmv /determinant2 /= => det0.
by congr pair; field.
Qed.

Lemma mulmv_inj M : determinant2 M != 0 -> injective (mulmv M).
Proof.
by move=> det0 w1 w2 eqM; rewrite -(solve_right_mulmv w1 det0) eqM solve_right_mulmv.
Qed.

Lemma mapM_bind_map (T U V : Type) (f : T -> result U) (g : U -> V)
    (s : seq T) :
  mapM (fun x => y <~ f x ;; Return (g y)) s
  = (ys <~ mapM f s ;; Return (map g ys)).
Proof.
elim: s => [|x s IHs] //=; case: (f x) => [y|] //=.
by rewrite IHs; case: (mapM f s).
Qed.

Lemma mapM_ext_in (T : eqType) (U : Type) (f g : T -> result U) (s : seq T) :
  {in s, f =1 g} -> mapM f s = mapM g s.
Proof.
elim: s => [|x s IHs] //= fg; rewrite fg ?mem_head // IHs // => y ys.
by apply: fg; rewrite in_cons ys orbT.
Qed.

Lemma mapM_ext (T U : Type) (f g : T -> result U) (s : seq T) :
  f =1 g -> mapM f s = mapM g s.
Proof. by move=> fg; elim: s => [|x s /= ->] //; rewrite fg. Qed.

Lemma mapM_Return_map (T U : Type) (g : T -> U) (s : seq T) :
  mapM (fun x => Return (g x)) s = Return (map g s).
Proof. by elim: s => [|x s /= ->]. Qed.

Lemma mapM_all_Return (T U : Type) (f : T -> result U) (g : T -> U)
    (p : pred T) (s : seq T) :
  (forall x, p x -> f x = Return (g x)) -> all p s ->
  mapM f s = Return (map g s).
Proof.
by move=> fg; elim: s => [|x s IHs] //= /andP[/fg-> /IHs->].
Qed.

Lemma Triangulation_apply_matrix_spec t M :
  all (@Triangle_valid R) (Triangulation.triangles t) ->
  (0 < determinant2 M ->
     Triangulation_apply_matrix t M
     = Return (Triangulation.Make
                 [seq Triangle.Make [seq mulmv M e | e <- Triangle.edges tri]
                    | tri <- Triangulation.triangles t]
                 (Triangulation.gluings t)))
  /\ (determinant2 M <= 0 -> (0 < size (Triangulation.triangles t))%N ->
        Triangulation_apply_matrix t M = Raise (ValueError SidesNotOriented)).
Proof.
rewrite /Triangulation_apply_matrix => ok; split=> [pos|neg].
  rewrite (@mapM_all_Return _ _ _
             (fun tri => Triangle.Make [seq mulmv M e | e <- Triangle.edges tri])
             _ _ _ ok) // => tri valid.
  by rewrite Triangle_apply_matrix_spec // pos.
case: (Triangulation.triangles t) ok => [|tri ts] //= /andP[valid _] _.
by rewrite Triangle_apply_matrix_spec // ltNge neg.
Qed.


Lemma from_triangles_image M (tri1 tri2 : Triangle.t R) (l1 l2 : nat) :
  determinant2 M != 0 ->
  Hinge._from_triangles
    (Triangle.Make [seq mulmv M e | e <- Triangle.edges tri1]) l1
    (Triangle.Make [seq mulmv M e | e <- Triangle.edges tri2]) l2
  = (hinge <~ Hinge._from_triangles tri1 l1 tri2 l2 ;;
     Return (Hinge_image M hinge)).
Proof.
move=> det0; rewrite /Hinge._from_triangles /= !getitem_map.
case: (getitem _ l1) => [edge1|] //=; case: (getitem _ l2) => [edge2|] //=.
rewrite -mulmvN (inj_eq (mulmv_inj det0)); case: ifP => // _.
case: (getitem _ _) => [v0|] //=; case: (getitem _ _) => [w|] //=.
by rewrite /Hinge_image /= mulmvN.
Qed.

Lemma hinges_image M t :
  determinant2 M != 0 ->
  Triangulation.hinges
    (Triangulation.Make
       [seq Triangle.Make [seq mulmv M e | e <- Triangle.edges tri]
          | tri <- Triangulation.triangles t]
       (Triangulation.gluings t))
  = (hs <~ Triangulation.hinges t ;; Return (map (Hinge_image M) hs)).
Proof.
move=> det0; rewrite /Triangulation.hinges /Triangulation.edges /= size_map.
case: (filterM _ _) => [reps|] //=.
rewrite -mapM_bind_map; apply: mapM_ext => e.
rewrite /Triangulation._hinge /=; case: (lookup _ e) => [e'|] //=.
rewrite !getitem_map.
case: (getitem _ e.1) => [tri1|] //=; case: (getitem _ e'.1) => [tri2|] //=.
exact: from_triangles_image.
Qed.

(** The incircle test after the matrix with rows [(1, u)] and [(0, v)] is
    [v] times the value of the inequality of the half-plane at [(u, v)]. *)
Lemma incircle_test_shear (u v : R) (hinge : Hinge.t R) :
  Hinge.incircle_test (Hinge_image ((1, u), (0, v)) hinge)
  = v * (a (Hinge.halfplane hinge) * (u ^+ 2 + v ^+ 2)
         + b (Hinge.halfplane hinge) * u + c (Hinge.halfplane hinge)).
Proof.
case: hinge => [[[[x0 y0] [x1 y1]] [x2 y2]]].
rewrite /Hinge.incircle_test /Hinge.halfplane /Hinge_image /Hinge.rows /=.
by rewrite /determinant3 /mulmv /=; ring.
Qed.

Lemma is_delaunay_shear t (u v : R) (hs : seq (Hinge.t R)) :
  all (@Triangle_valid R) (Triangulation.triangles t) ->
  0 < v ->
  Triangulation.hinges t = Return hs ->
  exists2 t', Triangulation_apply_matrix t ((1, u), (0, v)) = Return t' &
    Triangulation.is_delaunay t' false
    = Return (all (fun hinge =>
                     let h := Hinge.halfplane hinge in
                     0 <= a h * (u ^+ 2 + v ^+ 2) + b h * u + c h) hs)
    /\ Triangulation.is_delaunay t' true
    = Return (all (fun hinge =>
                     let h := Hinge.halfplane hinge in
                     0 < a h * (u ^+ 2 + v ^+ 2) + b h * u + c h) hs).
Proof.
move=> ok v0 hinges_t.
have det_v : determinant2 ((1, u), (0, v)) = v.
  by rewrite /determinant2 /= mul1r mulr0 subr0.
have pos : 0 < determinant2 ((1, u), (0, v)) by rewrite det_v.
have [/(_ pos) -> _] := Triangulation_apply_matrix_spec ((1, u), (0, v)) ok.
eexists; first by [].
rewrite /Triangulation.is_delaunay hinges_image ?det_v ?gt_eqF //.
rewrite hinges_t /= !all_map; split; congr Return; apply: eq_all => hinge /=.
  by rewrite incircle_test_shear pmulr_rge0.
by rewrite incircle_test_shear pmulr_rgt0.
Qed.


(** X5. The constructor of [Triangle] in triangulation.py: it returns, with the
    edges it was given, exactly when they sum to zero, are at least three and
    [det(edges[0], -edges[2]) > 0]; it raises "sides do not close up" when
    the sum is not zero, [IndexError] when the sum is zero with fewer than
    three edges, and "sides are not oriented correctly" when the determinant
    is not positive. *)
Theorem Triangle_init_cases (edges : seq (vector R)) :
  [/\ forall tri, Triangle.init edges = Return tri <->
        [/\ tri = Triangle.Make edges, vsum edges = (0, 0), (2 < size edges)%N
          & 0 < determinant2 (nth (0, 0) edges 0, vneg (nth (0, 0) edges 2))],
      vsum edges != (0, 0) ->
        Triangle.init edges = Raise (ValueError SidesDoNotCloseUp),
      vsum edges = (0, 0) -> (size edges < 3)%N ->
        Triangle.init edges = Raise IndexError
    & vsum edges = (0, 0) -> (2 < size edges)%N ->
      determinant2 (nth (0, 0) edges 0, vneg (nth (0, 0) edges 2)) <= 0 ->
        Triangle.init edges = Raise (ValueError SidesNotOriented)].
Proof. exact: Triangle_init_spec. Qed.

(** X6. [Triangle.apply_matrix(M)] on a triangle that the constructor accepts
    returns the triangle of the images [M * edge] when [det M > 0], and
    raises "sides are not oriented correctly" otherwise. *)
Theorem Triangle_apply_matrix_cases tri M :
  Triangle_valid tri ->
  Triangle_apply_matrix tri M
  = if 0 < determinant2 M
    then Return (Triangle.Make [seq mulmv M e | e <- Triangle.edges tri])
    else Raise (ValueError SidesNotOriented).
Proof. exact: Triangle_apply_matrix_spec. Qed.

(** X7. [Triangulation.apply_matrix(M)] on a triangulation of valid triangles.
    When [det M > 0] it returns a triangulation with the same gluings, as
    many triangles, all valid, the same [edges()], and whose [hinges()] are
    the images under [M] of the hinges of the original (raising when those
    raise). When [det M <= 0] and there is a triangle it raises "sides are
    not oriented correctly". *)
Theorem Triangulation_apply_matrix_cases t M :
  all (@Triangle_valid R) (Triangulation.triangles t) ->
  (0 < determinant2 M ->
     exists2 t', Triangulation_apply_matrix t M = Return t' &
       [/\ Triangulation.gluings t' = Triangulation.gluings t,
           size (Triangulation.triangles t') = size (Triangulation.triangles t),
           all (@Triangle_valid R) (Triangulation.triangles t'),
           Triangulation.edges t' = Triangulation.edges t
         & Triangulation.hinges t'
           = (hs <~ Triangulation.hinges t ;;
              Return [seq Hinge_image M hinge | hinge <- hs])])
  /\ (determinant2 M <= 0 -> (0 < size (Triangulation.triangles t))%N ->
        Triangulation_apply_matrix t M = Raise (ValueError SidesNotOriented)).
Proof.
move=> ok; have [pos neg] := Triangulation_apply_matrix_spec M ok.
split=> // detM; rewrite pos //; eexists; first by [].
split=> //=; rewrite ?size_map //.
- rewrite all_map; apply: sub_all ok => tri valid /=.
  have := Triangle_apply_matrix_spec M valid; rewrite detM.
  by rewrite /Triangle_apply_matrix /Triangle_valid /= => ->.
- by rewrite /Triangulation.edges /= size_map.
- by rewrite hinges_image // gt_eqF.
Qed.

(** X8. After [apply_matrix] with the matrix of rows [(1, u)] and [(0, v)],
    [v > 0], the incircle test of each hinge is [v] times the value
    [a*(u^2 + v^2) + b*u + c] of its half-plane at [(u, v)]: [is_delaunay]
    of the image returns whether all these values are [>= 0], and with
    [strict=True] whether all are [> 0]. *)
Theorem is_delaunay_apply_matrix t (u v : R) (hs : seq (Hinge.t R)) :
  all (@Triangle_valid R) (Triangulation.triangles t) ->
  0 < v ->
  Triangulation.hinges t = Return hs ->
  exists2 t', Triangulation_apply_matrix t ((1, u), (0, v)) = Return t' &
    Triangulation.is_delaunay t' false
    = Return (all (fun hinge =>
                     let h := Hinge.halfplane hinge in
                     0 <= a h * (u ^+ 2 + v ^+ 2) + b h * u + c h) hs)
    /\ Triangulation.is_delaunay t' true
    = Return (all (fun hinge =>
                     let h := Hinge.halfplane hinge in
                     0 < a h * (u ^+ 2 + v ^+ 2) + b h * u + c h) hs).
Proof. exact: is_delaunay_shear. Qed.

End ApplyMatrixMore.

Section IntersectMore.
Variable R : rcfType.
Implicit Types (h : HalfPlane R) (p : Point.t R).

(** X9. A point that [intersect_boundaries] returns is on both boundaries.
    For two Lines it is the point at infinity [Point(oo, 0)]; otherwise it is
    [Point(Radical(u, 0, 0), v2)] with [v2 >= 0], and [(u, v2)] annuls both
    [a*(u^2 + v2) + b*u + c]. *)
Theorem intersect_boundaries_sound h1 h2 p :
  intersect_boundaries h1 h2 = Some p ->
  if isinstance_Line h1 && isinstance_Line h2 then p = Point.Make Point.oo 0
  else
    exists u : R,
      [/\ Point.u p = Point.Finite (Radical.Make u 0 0), 0 <= Point.v p,
          a h1 * (u ^+ 2 + Point.v p) + b h1 * u + c h1 = 0
        & a h2 * (u ^+ 2 + Point.v p) + b h2 * u + c h2 = 0].
Proof.
rewrite /intersect_boundaries; case: ifP => [_ [<-] //|_].
case: eqP => // /eqP det0.
have := solve_rightP (- c h1, - c h2) det0.
case: (solve_right _ _) => w u /= [eq1 eq2].
case: ltP => // v2 [<-] /=; exists u; split=> //.
  by rewrite addrCA subrr addr0 eq1 addNr.
by rewrite addrCA subrr addr0 eq2 addNr.
Qed.

(** X10. [intersect_boundaries] is symmetric:
    [h1.intersect_boundaries(h2)] and [h2.intersect_boundaries(h1)] are the
    same point or both [None]. *)
Theorem intersect_boundaries_sym h1 h2 :
  intersect_boundaries h1 h2 = intersect_boundaries h2 h1.
Proof.
rewrite /intersect_boundaries andbC; case: ifP => // _.
have detN : determinant2 (a h2, b h2, (a h1, b h1))
            = - determinant2 (a h1, b h1, (a h2, b h2)).
  by rewrite /determinant2 /=; ring.
rewrite detN oppr_eq0; case: eqP => // /eqP det0.
have -> // : solve_right (a h2, b h2, (a h1, b h1)) (- c h2, - c h1)
           = solve_right (a h1, b h1, (a h2, b h2)) (- c h1, - c h2).
rewrite /solve_right detN; move: det0; rewrite /determinant2 /= => det0.
by congr pair; field.
Qed.


Lemma solve_right_unique (M : (R * R) * (R * R)) (x : R * R) :
  determinant2 M != 0 ->
  solve_right M (M.1.1 * x.1 + M.1.2 * x.2, M.2.1 * x.1 + M.2.2 * x.2) = x.
Proof.
case: M x => [[m11 m12] [m21 m22]] [x1 x2].
rewrite /solve_right /determinant2 /= => det0.
by congr pair; field.
Qed.

Lemma intersect_boundaries_regular h1 h2 (u w : R) :
  ~~ (isinstance_Line h1 && isinstance_Line h2) ->
  determinant2 ((a h1, b h1), (a h2, b h2)) != 0 ->
  a h1 * (u ^+ 2 + w) + b h1 * u + c h1 = 0 ->
  a h2 * (u ^+ 2 + w) + b h2 * u + c h2 = 0 ->
  0 <= w ->
  intersect_boundaries h1 h2
  = Some (Point.Make (Point.Finite (Radical.Make u 0 0)) w).
Proof.
move=> /negPf lines det0 eq1 eq2 w0.
rewrite /intersect_boundaries lines (negPf det0).
have -> : (- c h1, - c h2)
          = (a h1 * (u ^+ 2 + w) + b h1 * u, a h2 * (u ^+ 2 + w) + b h2 * u).
  by congr pair; apply/eqP; rewrite eq_sym -addr_eq0 ?eq1 ?eq2.
rewrite (solve_right_unique (_, _) det0) /=.
by rewrite addrAC subrr add0r ltNge w0.
Qed.

(** X11. [intersect_boundaries] finds the common point: when the two are not both
    Lines, the matrix of their [(a, b)] is regular and [(u, w)] with
    [w >= 0] annuls both [a*(u^2 + w) + b*u + c], the call returns
    [Point(Radical(u, 0, 0), w)]. *)
Theorem intersect_boundaries_complete h1 h2 (u w : R) :
  ~~ (isinstance_Line h1 && isinstance_Line h2) ->
  determinant2 ((a h1, b h1), (a h2, b h2)) != 0 ->
  a h1 * (u ^+ 2 + w) + b h1 * u + c h1 = 0 ->
  a h2 * (u ^+ 2 + w) + b h2 * u + c h2 = 0 ->
  0 <= w ->
  intersect_boundaries h1 h2
  = Some (Point.Make (Point.Finite (Radical.Make u 0 0)) w).
Proof. exact: intersect_boundaries_regular. Qed.

Variable CCW : Point.t R -> Point.t R -> Point.t R -> bool.

(** X12. Whatever [intersect_edge] returns has at most two edges, at most one
    when the edge is not ideal, and each of them has the half-plane of the
    edge that was clipped. *)
Theorem intersect_edge_shape h (e : Edge.t R) (es : seq (Edge.t R)) :
  intersect_edge CCW h e = Return es ->
  [/\ (size es <= 2)%N, (~~ Edge.is_ideal e -> (size es <= 1)%N)
    & all (fun e' => Edge.halfplane e' == Edge.halfplane e) es].
Proof.
rewrite /intersect_edge; case ideal: (Edge.is_ideal e).
  have hp : Edge.halfplane e = None.
    by move: ideal; rewrite /Edge.is_ideal; case: (Edge.halfplane e).
  rewrite /_intersect_edge_ideal.
  case: (the_point _) => [p1|] //=; case: (contains_point _ _ _) => [cs|] //=.
  case: (the_point _) => [p2|] //=; case: (contains_point _ _ _) => [ce|] //=.
  case: cs; case: ce => /=.
  - case: (_point_outside h) => [w|] //=; case: (CCW _ _ _).
      by case=> <-; rewrite /= eqxx.
    case: (start h) => [hs|] //=; case: (end_ h) => [he|] //= [<-].
    by rewrite /= hp.
  - by case: (start h) => [hs|] //= [<-]; rewrite /= hp.
  - by case: (end_ h) => [he|] //= [<-]; rewrite /= hp.
  - case: (_point_inside h) => [w|] //=; case: (CCW _ _ _); first by case=> <-.
    case: (end_ h) => [he|] //=; case: (start h) => [hs|] //= [<-].
    by rewrite /= hp.
rewrite /_intersect_edge_real.
case: (the_point _) => [p1|] //=; case: (contains_point _ _ _) => [cs|] //=.
case: (the_point _) => [p2|] //=; case: (contains_point _ _ _) => [ce|] //=.
case: cs; case: ce => /=; try by case=> <-; rewrite /= ?eqxx.
  by case: (intersect_boundaries_field _ _) => [q|] //= [<-]; rewrite /= eqxx.
by case: (intersect_boundaries_field _ _) => [q|] //= [<-]; rewrite /= eqxx.
Qed.

(** X13. An object of the base class [HalfPlane] (as [Hinge.halfplane] returns)
    cannot clip an ideal edge: whatever the coefficients and the endpoints,
    [intersect_edge] raises [NotImplementedError]. *)
Theorem base_halfplane_cannot_clip_ideal (x y z : R) (e : Edge.t R)
    (p1 p2 : Point.t R) :
  Edge.is_ideal e -> Edge.start e = Some p1 -> Edge.end_ e = Some p2 ->
  intersect_edge CCW (BaseHalfPlane x y z) e = Raise NotImplementedError.
Proof.
move=> ideal es ee; rewrite /intersect_edge ideal /_intersect_edge_ideal es ee.
rewrite /= /contains_point.
case: (Point.u p1) => [x1|] //=; case: (Point.u p2) => [x2|] //=.
by do 2![case: (contains_ordinary _ _ _ _) => //=].
Qed.


(** X14. The half-planes of the hinges describe where the triangulation stays
    Delaunay: for [v > 0], the image under the matrix of rows [(1, u)] and
    [(0, v)] is Delaunay iff [contains_point] is true at the ordinary point
    of coordinates [(u, v)] for the half-plane of every hinge (the value
    plugged in is [a*(u^2 + v^2) + b*u + c]). *)
Theorem is_delaunay_iff_halfplanes_contain (t : Triangulation.t R) (u v : R)
    (hs : seq (Hinge.t R)) :
  all (@Triangle_valid R) (Triangulation.triangles t) ->
  0 < v ->
  Triangulation.hinges t = Return hs ->
  exists2 t', Triangulation_apply_matrix t ((1, u), (0, v)) = Return t' &
    (Triangulation.is_delaunay t' false = Return true <->
     forall hinge, hinge \in hs ->
       contains_point (Hinge.halfplane hinge) (Point.of_number u v) false
       = Return true).
Proof.
move=> ok v0 hinges_t.
have [t' apply_t [delaunay _]] := is_delaunay_shear u ok v0 hinges_t.
exists t' => //; rewrite delaunay.
have contains hinge :
    contains_point (Hinge.halfplane hinge) (Point.of_number u v) false
    = Return (let h := Hinge.halfplane hinge in
              0 <= a h * (u ^+ 2 + v ^+ 2) + b h * u + c h).
  rewrite /contains_point /= /contains_ordinary.
  rewrite /Point._plug_point_into_halfplane /Radical.value /= mul0r addr0.
  by rewrite le_eqVlt eq_sym.
split=> [[/allP all_hs] hinge /all_hs /= ok_h|all_hs].
  by rewrite contains /= ok_h.
by congr Return; apply/allP => hinge /all_hs; rewrite contains /=; case.
Qed.

End IntersectMore.

Section EdgesMore.
Variable R : realFieldType.
Implicit Types (t : Triangulation.t R).

Lemma lookup_KeyError (K : eqType) (V : Type) (d : dict K V) (k : K) (e : exn) :
  lookup d k = Raise e -> e = KeyError.
Proof.
by elim: d => [[<-]|[k' x] d IHd] //=; case: ifP.
Qed.

Lemma lookup_mem (K V : eqType) (d : dict K V) (k : K) (x : V) :
  lookup d k = Return x -> (k, x) \in d.
Proof.
elim: d => [|[k' y] d IHd] //=; case: eqP => [->[->]|_ /IHd].
  by rewrite mem_head.
by rewrite in_cons orbC => ->.
Qed.

Lemma lookup_returns (K V : eqType) (d : dict K V) (k : K) :
  returns (lookup d k) = (k \in [seq kv.1 | kv <- d]).
Proof.
elim: d => [|[k' y] d IHd] //=; rewrite in_cons eq_sym.
by case: eqP.
Qed.

Lemma filterM_Raise (V : Type) (p : V -> result bool) (s : seq V) :
  ~~ all (fun x => returns (p x)) s ->
  exists2 e, filterM p s = Raise e & exists x, p x = Raise e.
Proof.
elim: s => [|x s IHs] //=; case px: (p x) => [keep|e] /=; last first.
  by move=> _; exists e => //; exists x.
by case/IHs => e -> [y py]; exists e => //; exists y.
Qed.

(** X15. [edges()] without any assumption on the gluings: it raises [KeyError]
    when some pair [(triangle, edge)] is not a key of the gluings, and
    otherwise returns, in order, the pairs smaller than their image. *)
Theorem edges_keys t :
  let pairs := Triangulation.product_range (size (Triangulation.triangles t)) in
  Triangulation.edges t
  = if all (fun e => e \in [seq kv.1 | kv <- Triangulation.gluings t]) pairs
    then Return [seq e <- pairs | tuple_lt e (Triangulation.image t e)]
    else Raise KeyError.
Proof.
move=> pairs; rewrite /Triangulation.edges -/pairs.
case: ifP => [/allP keys|/negbT nkeys].
  apply: filterM_Return => e /keys; rewrite -lookup_returns.
  by rewrite /Triangulation.image; case: (lookup _ e).
have [|e -> [x]] := @filterM_Raise _
    (fun edge => image <~ lookup (Triangulation.gluings t) edge ;;
                 Return (tuple_lt edge image)) pairs.
  apply: contra nkeys => /allP ok; apply/allP => e /ok.
  by rewrite -lookup_returns; case: (lookup _ e).
by case lx: (lookup _ x) => [y|e'] //= [<-]; rewrite (lookup_KeyError lx).
Qed.

End EdgesMore.

Section GluingMore.
Variable R : realFieldType.
Implicit Types (t : Triangulation.t R).

Lemma mapM_size (T U : Type) (f : T -> result U) (s : seq T) (ys : seq U) :
  mapM f s = Return ys -> size ys = size s.
Proof.
elim: s ys => [|x s IHs] ys /=; first by case=> <-.
case: (f x) => [y|] //=; case: (mapM f s) IHs => [ys'|] //= IHs [<-] /=.
by rewrite (IHs ys').
Qed.

Lemma mapM_returns (T : eqType) (U : Type) (f : T -> result U) (s : seq T) :
  {in s, forall x, returns (f x)} -> returns (mapM f s).
Proof.
elim: s => [|x s IHs] //= ok.
case fx: (f x) (ok x (mem_head _ _)) => [y|] //= _.
case fs: (mapM f s) IHs => [ys|] //= -> // z zs.
by apply: ok; rewrite in_cons zs orbT.
Qed.

Lemma product_rangeP (n : nat) (e : label) :
  (e \in Triangulation.product_range n) = (e.1 < n)%N && (e.2 < 3)%N.
Proof.
apply/allpairsP/andP => [[[i j] []]|[e1 e2]].
  by rewrite !mem_iota !add0n => mi mj ->.
by exists e; rewrite !mem_iota !add0n; split=> //; case: e {e1 e2}.
Qed.

(** X16. [edges(gluings=True)] under the involution hypothesis returns pairs
    [(rep, image)] with [rep < image] and [image = gluings[rep]]; the
    representatives together with the images are all the pairs
    [(triangle, edge)], each once. *)
Theorem edges_gluings_cover t :
  Triangulation.fixed_point_free_involution t ->
  exists2 ps, Triangulation.edges_gluings t = Return ps &
    [/\ forall p, p \in ps -> tuple_lt p.1 p.2
                  /\ lookup (Triangulation.gluings t) p.1 = Return p.2
      & perm_eq ([seq p.1 | p <- ps] ++ [seq p.2 | p <- ps])
          (Triangulation.product_range (size (Triangulation.triangles t)))].
Proof.
move=> inv; set pairs := Triangulation.product_range _.
set reps := [seq e <- pairs | tuple_lt e (Triangulation.image t e)].
have reps_pairs e : e \in reps -> e \in pairs by rewrite mem_filter => /andP[].
exists [seq (e, Triangulation.image t e) | e <- reps].
  rewrite /Triangulation.edges_gluings (edges_filter inv) /= -/pairs -/reps.
  rewrite -(mapM_Return_map (fun e => (e, Triangulation.image t e))).
  apply: mapM_ext_in => e /reps_pairs me.
  by have [-> _ _ _] := involution_image inv me.
split=> [p /mapP[e me ->] /=|].
  move: me; rewrite mem_filter => /andP[lt_e me]; split=> //.
  by have [] := involution_image inv me.
rewrite -!map_comp /= map_id.
apply: uniq_perm; rewrite ?product_range_uniq //.
  rewrite cat_uniq; apply/and3P; split.
  - by rewrite filter_uniq ?product_range_uniq.
  - apply/hasPn => e' /mapP[e me ->] /=.
    move: me; rewrite !mem_filter => /andP[lt_e me].
    have [_ ne mi ->] := involution_image inv me.
    by rewrite (@tuple_lt_total e) 1?eq_sym // lt_e.
  - rewrite map_inj_in_uniq ?filter_uniq ?product_range_uniq //.
    move=> e1 e2 /reps_pairs m1 /reps_pairs m2 /= eq12.
    have [_ _ _ <-] := involution_image inv m1.
    by have [_ _ _ <-] := involution_image inv m2; rewrite eq12.
move=> e; rewrite mem_cat; apply/orP/idP => [[/reps_pairs //|]|me].
  by case/mapP=> e0 /reps_pairs m0 ->; have [] := involution_image inv m0.
have [_ ne mi ii] := involution_image inv me.
case lt_e: (tuple_lt e (Triangulation.image t e)).
  by left; rewrite mem_filter lt_e.
right; apply/mapP; exists (Triangulation.image t e); last by rewrite /= ii.
by rewrite mem_filter mi ii (@tuple_lt_total e) 1?eq_sym // lt_e.
Qed.

End GluingMore.

Section HingeSides.
Variable R : realFieldType.
Implicit Types (t : Triangulation.t R) (tri : Triangle.t R).

Lemma hinge_sides (e f g e' f' g' : vector R) :
  vadd e (vadd f g) = (0, 0) -> vadd e' (vadd f' g') = (0, 0) ->
  e = vneg e' ->
  Hinge.incircle_test (Hinge.Make (f, e', vneg g'))
  = Hinge.incircle_test (Hinge.Make (f', e, vneg g))
  /\ Hinge.halfplane (Hinge.Make (f, e', vneg g'))
  = Hinge.halfplane (Hinge.Make (f', e, vneg g)).
Proof.
case: e f g e' f' g' => [ex ey] [fx fy] [gx gy] [ex' ey'] [fx' fy'] [gx' gy'].
rewrite /vadd /vneg /= => -[sx sy] [sx' sy'] [eqx eqy].
have -> : gx = - (ex + fx) by lra.
have -> : gy = - (ey + fy) by lra.
have -> : gx' = - (ex' + fx') by lra.
have -> : gy' = - (ey' + fy') by lra.
rewrite eqx eqy /Hinge.incircle_test /Hinge.halfplane /Hinge.rows.
rewrite /determinant3 /=; split; last congr BaseHalfPlane; ring.
Qed.

Lemma closing3P tri :
  closing3 tri ->
  exists x0 x1 x2 : vector R,
    [/\ Triangle.edges tri = [:: x0; x1; x2], vadd x0 (vadd x1 x2) = (0, 0),
        vadd x1 (vadd x2 x0) = (0, 0) & vadd x2 (vadd x0 x1) = (0, 0)].
Proof.
case: tri => [[|x0 [|x1 [|x2 [|? ?]]]]] //= /andP[_ /eqP].
case: x0 x1 x2 => [a0 b0] [a1 b1] [a2 b2]; rewrite /vadd /= => -[sa sb].
by exists (a0, b0), (a1, b1), (a2, b2); split=> //; congr pair => /=; lra.
Qed.

(** X17. A hinge can be built from either side of a glued edge: when both
    triangles have three edges that close up and
    [_from_triangles(t1, l1, t2, l2)] returns, so does
    [_from_triangles(t2, l2, t1, l1)], and the two hinges have the same
    [incircle_test()] and the same [halfplane()]. *)
Theorem hinge_side_independent tri1 (l1 : nat) tri2 (l2 : nat)
    (hinge : Hinge.t R) :
  closing3 tri1 -> closing3 tri2 ->
  Hinge._from_triangles tri1 l1 tri2 l2 = Return hinge ->
  exists2 hinge', Hinge._from_triangles tri2 l2 tri1 l1 = Return hinge' &
    Hinge.incircle_test hinge' = Hinge.incircle_test hinge
    /\ Hinge.halfplane hinge' = Hinge.halfplane hinge.
Proof.
case/closing3P=> x0 [x1 [x2 [edges1 sx0 sx1 sx2]]].
case/closing3P=> y0 [y1 [y2 [edges2 sy0 sy1 sy2]]].
rewrite /Hinge._from_triangles edges1 edges2.
have opp (e e' : vector R) : (e != vneg e') = false -> (e' != vneg e) = false.
  move/negbFE/eqP->; apply/negbTE; rewrite negbK; apply/eqP.
  by case: e' => ? ?; rewrite /vneg /= !opprK.
case: l1 => [|[|[|l1]]] //=; case: l2 => [|[|[|l2]]] //=;
  case: ifP => // glued [<-]; rewrite (opp _ _ glued);
  (eexists; first by []); apply: hinge_sides => //; exact/eqP/negbFE.
Qed.

End HingeSides.

Section HingesTotal.
Variable R : realFieldType.
Implicit Types (t : Triangulation.t R) (tri : Triangle.t R).

Lemma pred_mod3_lt3 (l : nat) : (pred_mod3 l < 3)%N.
Proof. by rewrite pred_mod3_add2 ltn_pmod. Qed.

Lemma hinge_of_pair t (e : label) :
  Triangulation.fixed_point_free_involution t ->
  all (@Triangle_valid R) (Triangulation.triangles t) ->
  consistently_glued t ->
  e \in Triangulation.product_range (size (Triangulation.triangles t)) ->
  let e' := Triangulation.image t e in
  Triangulation._hinge t e
  = Return (Hinge.Make (edge_vector t (e'.1, ((e'.2 + 1) %% 3)%N),
                        edge_vector t e,
                        vneg (edge_vector t (e.1, pred_mod3 e.2)))).
Proof.
move=> inv ok glued me e'.
have [look ne mi ii] := involution_image inv me.
move: (me) (mi); rewrite !product_rangeP => /andP[e1 e2] /andP[e1' e2'].
have size3 i : (i < size (Triangulation.triangles t))%N ->
    (2 < size (Triangle.edges (nth (Triangle.Make [::])
                                    (Triangulation.triangles t) i)))%N.
  by move=> lt_i; have /Triangle_validP[] := all_nthP (Triangle.Make [::]) ok i lt_i.
have lt_size i l : (i < size (Triangulation.triangles t))%N -> (l < 3)%N ->
    (l < size (Triangle.edges (nth (Triangle.Make [::])
                                    (Triangulation.triangles t) i)))%N.
  by move=> lt_i lt_l; apply: leq_trans (size3 i lt_i).
rewrite /Triangulation._hinge look /= !(getitem_nth (Triangle.Make [::])).
rewrite e1 -/e' e1' /= /Hinge._from_triangles !(getitem_nth (0, 0)).
rewrite !lt_size ?ltn_pmod ?pred_mod3_lt3 //=.
have /eqP := allP glued e me; rewrite /edge_vector -/e' => ->.
by rewrite eqxx.
Qed.

(** X18. [hinges()] returns when the gluings are an involution without fixed
    point, every triangle is valid and glued edges are opposite vectors. It
    has [3n/2] hinges, and the middle vector of each is the edge vector of a
    representative pair. *)
Theorem hinges_total t :
  Triangulation.fixed_point_free_involution t ->
  all (@Triangle_valid R) (Triangulation.triangles t) ->
  consistently_glued t ->
  exists2 hs, Triangulation.hinges t = Return hs &
    (size hs).*2 = (3 * size (Triangulation.triangles t))%N
    /\ forall hinge, hinge \in hs ->
         exists e, [/\ e \in Triangulation.product_range
                                (size (Triangulation.triangles t)),
                       tuple_lt e (Triangulation.image t e)
                     & (Hinge.vectors hinge).1.2 = edge_vector t e].
Proof.
move=> inv ok glued; set pairs := Triangulation.product_range _.
set reps := [seq e <- pairs | tuple_lt e (Triangulation.image t e)].
pose hinge_of e :=
  Hinge.Make (edge_vector t ((Triangulation.image t e).1,
                             (((Triangulation.image t e).2 + 1) %% 3)%N),
              edge_vector t e, vneg (edge_vector t (e.1, pred_mod3 e.2))).
have hinges_t : Triangulation.hinges t = Return (map hinge_of reps).
  rewrite /Triangulation.hinges (edges_filter inv) /= -/pairs -/reps.
  rewrite -(mapM_Return_map hinge_of); apply: mapM_ext_in => e.
  by rewrite mem_filter => /andP[_ me]; apply: hinge_of_pair.
exists (map hinge_of reps) => //; split.
  by rewrite size_map size_filter (count_smaller inv) size_product_range mulnC.
move=> hinge /mapP[e]; rewrite mem_filter => /andP[lt_e me] ->.
by exists e.
Qed.

End HingesTotal.

Section BowmanTriangleProperties.

Variable R : realFieldType.
Variable Color : Type.

Notation triangle := (BowmanTriangle.t R Color).
Notation points := (seq (BowmanTriangle.barycentric R * Color)).

Notation Ok := BowmanTriangle.Ok.
Notation Err := BowmanTriangle.Err.
Notation v0 := BowmanTriangle.v0.
Notation v1 := BowmanTriangle.v1.
Notation v2 := BowmanTriangle.v2.
Notation points_marked := BowmanTriangle.points_marked.
Notation color_of := BowmanTriangle.color_of.
Notation recolor := BowmanTriangle.recolor.
Notation valid_point := (@BowmanTriangle.valid_point R Color).
Notation well_formed := BowmanTriangle.well_formed.
Notation mirror := BowmanTriangle.mirror.
Notation length2 := BowmanTriangle.length2.

Implicit Types (T : triangle) (pts : points).
Implicit Types (coords : BowmanTriangle.barycentric R).

Lemma check_pointsP pts :
  BowmanTriangle.check_points pts
  = if all (@BowmanTriangle.valid_point R Color) pts then BowmanTriangle.Ok tt
    else BowmanTriangle.Err BowmanTriangle.InvalidBarycentricCoordinates.
Proof.
elim: pts => [|[[[a0 a1] a2] col] pts IHpts] //=.
rewrite /BowmanTriangle.valid_point /=.
by case: BowmanTriangle.is_valid_barycentric_coordinate.
Qed.

Lemma BowmanTriangle_init_spec (w0 w1 w2 : vector R) (opts : option points) :
  BowmanTriangle.init w0 w1 w2 opts
  = if vadd (vadd w0 w1) w2 != (0, 0)
    then BowmanTriangle.Err (BowmanTriangle.Exn (ValueError SidesDoNotCloseUp))
    else if determinant2 (w0, vneg w2) <= 0
    then BowmanTriangle.Err (BowmanTriangle.Exn (ValueError SidesNotOriented))
    else if all (@BowmanTriangle.valid_point R Color) (odflt [::] opts)
    then BowmanTriangle.Ok (BowmanTriangle.Make w0 w1 w2 (odflt [::] opts))
    else BowmanTriangle.Err BowmanTriangle.InvalidBarycentricCoordinates.
Proof.
rewrite /BowmanTriangle.init; case: ifP => // _; case: ifP => // _.
by case: opts => [pts|] //=; rewrite check_pointsP; case: all.
Qed.

Lemma well_formedP T :
  BowmanTriangle.well_formed T <->
  [/\ vadd (vadd (BowmanTriangle.v0 T) (BowmanTriangle.v1 T))
           (BowmanTriangle.v2 T) = (0, 0),
      0 < determinant2 (BowmanTriangle.v0 T, vneg (BowmanTriangle.v2 T))
    & all (@BowmanTriangle.valid_point R Color)
          (BowmanTriangle.points_marked T)].
Proof.
rewrite /BowmanTriangle.well_formed BowmanTriangle_init_spec /=.
case: T => w0 w1 w2 pts /=.
case: eqP => [sum0|nsum] /=; last by split=> // -[].
case: leP => [neg|pos] /=; first by split=> // -[].
by case: all; split=> // -[].
Qed.


(** *** mark_point *)

Lemma recolor_None pts coords (col : Color) :
  recolor pts coords col = None -> color_of pts coords = None.
Proof.
elim: pts => [|[c0 col0] pts IHpts] //=; case: ifP => // _.
by case: (recolor pts coords col) IHpts => // ->.
Qed.

Lemma recolor_Some pts coords (col : Color) pts' :
  recolor pts coords col = Some pts' ->
  [/\ size pts' = size pts, color_of pts' coords = Some col,
      (exists col0, color_of pts coords = Some col0),
      (forall c, c != coords -> color_of pts' c = color_of pts c)
    & valid_point (coords, col) -> all valid_point pts ->
      all valid_point pts'].
Proof.
elim: pts pts' => [|[c0 col0] pts IHpts] pts' //=.
have [eq0|ne0] := eqVneq coords c0.
  case=> <-; split=> //=; rewrite ?eqxx //; first by exists col0.
    by move=> c /negPf; rewrite eq0 => ->.
  by move=> -> /andP[_ ->].
case rec: (recolor pts coords col) => [pts''|] // [<-].
have [sz col_c [col1 was] others ok] := IHpts _ rec.
split=> /=; rewrite ?sz ?(negPf ne0) //; first by exists col1.
  by move=> c ne; rewrite others.
by move=> ok_c /andP[-> ok_pts]; rewrite ok.
Qed.

Lemma color_of_rcons pts coords (col : Color) c :
  color_of (pts ++ [:: (coords, col)]) c
  = if color_of pts c is Some col0 then Some col0
    else if c == coords then Some col else None.
Proof.
by elim: pts => [|[c0 col0] pts IHpts] //=; case: ifP.
Qed.

(** X19. [mark_point] on a triangle that the constructor accepts. With valid
    barycentric coordinates it returns a triangle with the same sides, again
    accepted by the constructor, where the point has the new colour and every
    other point keeps its colour; the number of marked points grows by one
    exactly when the point was not marked before. With invalid coordinates it
    raises "Invalid barycentric coordinates." *)
Theorem mark_point_cases T coords (rgbcolor : Color) :
  well_formed T ->
  let: (a0, a1, a2) := coords in
  if BowmanTriangle.is_valid_barycentric_coordinate a0 a1 a2 then
    exists2 T', BowmanTriangle.mark_point T coords rgbcolor = Ok T' &
      [/\ well_formed T',
          (v0 T', v1 T', v2 T') = (v0 T, v1 T, v2 T),
          color_of (points_marked T') coords = Some rgbcolor,
          (forall c, c != coords ->
             color_of (points_marked T') c = color_of (points_marked T) c)
        & size (points_marked T')
          = if color_of (points_marked T) coords is Some _
            then size (points_marked T) else (size (points_marked T)).+1]
  else BowmanTriangle.mark_point T coords rgbcolor
       = Err BowmanTriangle.InvalidBarycentricCoordinates.
Proof.
move=> /well_formedP[sum0 pos ok_pts].
case: coords => [[a0 a1] a2]; rewrite /BowmanTriangle.mark_point.
case valid: BowmanTriangle.is_valid_barycentric_coordinate => //=.
have ok_c : valid_point ((a0, a1, a2), rgbcolor) by [].
case rec: (recolor _ _ _) => [pts'|] /=;
  rewrite BowmanTriangle_init_spec sum0 eqxx /= leNgt pos /=.
  have [sz col_c [col0 was] others ok] := recolor_Some rec.
  rewrite ok //; eexists; first by [].
  split=> //=; last by rewrite was.
  by apply/well_formedP; split=> //=; apply: ok.
rewrite all_cat ok_pts /= ok_c; eexists; first by [].
have none := recolor_None rec.
split=> //=.
- by apply/well_formedP; split=> //=; rewrite all_cat ok_pts /= ok_c.
- by rewrite color_of_rcons none eqxx.
- by move=> c /negPf ne; rewrite color_of_rcons ne; case: color_of.
- by rewrite none size_cat addn1.
Qed.


(** *** reflect *)

Lemma dot_product_neq0 (v : vector R) :
  v != (0, 0) -> BowmanTriangle.dot_product v v != 0.
Proof.
case: v => x y; rewrite /BowmanTriangle.dot_product /= xpair_eqE -!expr2.
by rewrite paddr_eq0 ?sqr_ge0 // !sqrf_eq0.
Qed.

Lemma dot_productNN (v : vector R) :
  BowmanTriangle.dot_product (vneg v) (vneg v) = BowmanTriangle.dot_product v v.
Proof. by rewrite /BowmanTriangle.dot_product /vneg /=; ring. Qed.

Lemma vnegK (v : vector R) : vneg (vneg v) = v.
Proof. by case: v => x y; rewrite /vneg /= !opprK. Qed.

Lemma mirror_twice (v w : vector R) :
  BowmanTriangle.dot_product v v != 0 ->
  mirror (vneg v) (vneg (mirror v (vneg w))) = w.
Proof.
case: v w => [x y] [p q].
rewrite /BowmanTriangle.mirror /BowmanTriangle.vsub /BowmanTriangle.scale.
rewrite /vadd /vneg.
rewrite /BowmanTriangle.dot_product /= => nz.
have nz' : - x * - x + - y * - y != 0 by rewrite !mulrNN.
by congr pair; field.
Qed.


Lemma dot_product_mirror (v w : vector R) :
  BowmanTriangle.dot_product v v != 0 ->
  BowmanTriangle.dot_product (mirror v w) (mirror v w)
  = BowmanTriangle.dot_product w w.
Proof.
case: v w => [x y] [p q].
rewrite /BowmanTriangle.mirror /BowmanTriangle.vsub /BowmanTriangle.scale.
rewrite /vadd /vneg.
by rewrite /BowmanTriangle.dot_product /= => nz; field.
Qed.

Lemma closing_third (e f g : vector R) :
  vadd (vadd e f) g = (0, 0) -> g = vneg (vadd e f).
Proof.
case: e f g => [e1 e2] [f1 f2] [g1 g2]; rewrite /vadd /vneg /= => -[s1 s2].
by congr pair; lra.
Qed.

Lemma oriented_neq0 (e f : vector R) :
  0 < determinant2 (e, vneg (vneg (vadd e f))) ->
  [/\ BowmanTriangle.dot_product e e != 0,
      BowmanTriangle.dot_product f f != 0
    & BowmanTriangle.dot_product (vneg (vadd e f)) (vneg (vadd e f)) != 0].
Proof.
case: e f => [e1 e2] [f1 f2]; rewrite /determinant2 /vadd /vneg /= => pos.
split; apply: dot_product_neq0; apply: contraTneq pos => -[z1 z2];
  rewrite -leNgt.
- by rewrite z1 z2; lra.
- by rewrite z1 z2; lra.
have -> : f1 = - e1 by lra.
have -> : f2 = - e2 by lra.
by lra.
Qed.

Ltac by_coordinates :=
  rewrite /BowmanTriangle.mirror /BowmanTriangle.vsub /BowmanTriangle.scale
          /BowmanTriangle.dot_product /determinant2 /vadd /vneg /=.

Lemma reflect0_sides (e f : vector R) :
  BowmanTriangle.dot_product e e != 0 ->
  let g := vneg (vadd e f) in
  vadd (vadd (vneg e) (mirror e (vneg g))) (mirror e (vneg f)) = (0, 0)
  /\ determinant2 (vneg e, vneg (mirror e (vneg f)))
     = determinant2 (e, vneg g).
Proof.
case: e f => [e1 e2] [f1 f2]; by_coordinates => nz.
by split; [congr pair|]; field.
Qed.

Lemma reflect1_sides (e f : vector R) :
  BowmanTriangle.dot_product f f != 0 ->
  let g := vneg (vadd e f) in
  vadd (vadd (mirror f (vneg g)) (vneg f)) (mirror f (vneg e)) = (0, 0)
  /\ determinant2 (mirror f (vneg g), vneg (mirror f (vneg e)))
     = determinant2 (e, vneg g).
Proof.
case: e f => [e1 e2] [f1 f2]; by_coordinates => nz.
by split; [congr pair|]; field.
Qed.

Lemma reflect2_sides (e f : vector R) :
  let g := vneg (vadd e f) in
  BowmanTriangle.dot_product g g != 0 ->
  vadd (vadd (mirror g (vneg f)) (mirror g (vneg e))) (vneg g) = (0, 0)
  /\ determinant2 (mirror g (vneg f), vneg (vneg g))
     = determinant2 (e, vneg g).
Proof.
case: e f => [e1 e2] [f1 f2]; by_coordinates => nz.
by split; [congr pair|]; field.
Qed.

Lemma reflect_spec T idx :
  BowmanTriangle.reflect T idx
  = let e := v0 T in let f := v1 T in let g := v2 T in
    let axis := match idx with 0%N => e | 1%N => f | _ => g end in
    if (2 < idx)%N then Err (BowmanTriangle.InvalidIndex idx)
    else if BowmanTriangle.dot_product axis axis == 0
    then Err (BowmanTriangle.Exn ZeroDivisionError)
    else
      let: (s0, s1, s2) :=
        match idx with
        | 0%N => (vneg e, mirror e (vneg g), mirror e (vneg f))
        | 1%N => (mirror f (vneg g), vneg f, mirror f (vneg e))
        | _ => (mirror g (vneg f), mirror g (vneg e), vneg g)
        end in
      BowmanTriangle.init s0 s1 s2 (Some (points_marked T)).
Proof.
case: idx => [|[|[|idx]]] //=;
  by rewrite /BowmanTriangle.reflect /= /BowmanTriangle.reflect_vector /div;
     case: ifP.
Qed.


(** X20. [reflect(idx)] on a triangle that the constructor accepts. For
    [idx] in 0, 1, 2 it returns (no division by zero, and the constructor
    accepts the new sides) a triangle with the same marked points and the
    same area, whose side [idx] is the opposite of the old one and whose two
    other sides have the lengths of the old ones, exchanged; reflecting the
    result again at [idx] gives the triangle back. For any other index it
    raises the invalid-index [ValueError]. *)
Theorem reflect_involution T idx :
  well_formed T ->
  if (idx < 3)%N then
    exists2 T', BowmanTriangle.reflect T idx = Ok T' &
      [/\ well_formed T',
          BowmanTriangle.reflect T' idx = Ok T,
          points_marked T' = points_marked T,
          BowmanTriangle.area T' = BowmanTriangle.area T
        & [/\ BowmanTriangle.getitem T' idx
              = BowmanTriangle.and_then (BowmanTriangle.getitem T idx)
                  (fun w => Ok (vneg w)),
              length2 T' idx = length2 T idx,
              length2 T' ((idx + 1) %% 3) = length2 T ((idx + 2) %% 3)
            & length2 T' ((idx + 2) %% 3) = length2 T ((idx + 1) %% 3)]]
  else BowmanTriangle.reflect T idx = Err (BowmanTriangle.InvalidIndex idx).
Proof.
case: T => e f g pts /[dup] wf /well_formedP /= [/closing_third gE].
rewrite {g}gE in wf * => pos ok.
have [nz_e nz_f nz_g] := oriented_neq0 pos.
rewrite reflect_spec /=.
case: idx => [|[|[|idx]]] //=.
- have [sum' det'] := reflect0_sides f nz_e.
  rewrite (negPf nz_e) BowmanTriangle_init_spec sum' eqxx det' leNgt pos ok /=.
  eexists; first by [].
  split=> //.
  + by apply/well_formedP; split; rewrite /= ?sum' ?det'.
  + rewrite reflect_spec /= dot_productNN (negPf nz_e).
    by rewrite !mirror_twice // (vnegK e).
  + by rewrite /BowmanTriangle.area /= det'.
  + rewrite /BowmanTriangle.length2 /= dot_productNN.
    by rewrite !dot_product_mirror // !dot_productNN.
- have [sum' det'] := reflect1_sides e nz_f.
  rewrite (negPf nz_f) BowmanTriangle_init_spec sum' eqxx det' leNgt pos ok /=.
  eexists; first by [].
  split=> //.
  + by apply/well_formedP; split; rewrite /= ?sum' ?det'.
  + rewrite reflect_spec /= dot_productNN (negPf nz_f).
    by rewrite !mirror_twice // (vnegK f).
  + by rewrite /BowmanTriangle.area /= det'.
  + rewrite /BowmanTriangle.length2 /= dot_productNN.
    by rewrite !dot_product_mirror // !dot_productNN.
have [sum' det'] := reflect2_sides nz_g.
rewrite (negPf nz_g) BowmanTriangle_init_spec sum' eqxx det' leNgt pos ok /=.
eexists; first by [].
split=> //.
- by apply/well_formedP; split; rewrite /= ?sum' ?det'.
- rewrite reflect_spec /= dot_productNN (negPf nz_g).
  by rewrite !mirror_twice // (vnegK (vneg (vadd e f))).
- by rewrite /BowmanTriangle.area /= det'.
- rewrite /BowmanTriangle.length2 /= dot_productNN.
  by rewrite !dot_product_mirror // !dot_productNN.
Qed.


(** *** apply_matrix, vertices and area *)

(** X21. [apply_matrix(m)] of bowman/triangle.py on a triangle that the
    constructor accepts: when [det m > 0] it returns the triangle whose three
    sides are the images under [m] (the third one too, although the code
    computes it as [-(w0 + w1)]), with the same marked points and [det m]
    times the area; otherwise it raises "sides are not oriented
    correctly". *)
Theorem BowmanTriangle_apply_matrix_cases T (m : (R * R) * (R * R)) :
  well_formed T ->
  if 0 < determinant2 m then
    exists2 T', BowmanTriangle.apply_matrix T m = Ok T' &
      [/\ well_formed T',
          (v0 T', v1 T', v2 T')
          = (mulmv m (v0 T), mulmv m (v1 T), mulmv m (v2 T)),
          points_marked T' = points_marked T
        & BowmanTriangle.area T' = determinant2 m * BowmanTriangle.area T]
  else BowmanTriangle.apply_matrix T m
       = Err (BowmanTriangle.Exn (ValueError SidesNotOriented)).
Proof.
case: T => e f g pts /well_formedP /= [/closing_third -> pos ok].
rewrite /BowmanTriangle.apply_matrix /= BowmanTriangle_init_spec /=.
have -> : vadd (vadd (mulmv m e) (mulmv m f))
               (vneg (vadd (mulmv m e) (mulmv m f))) = (0, 0).
  by rewrite /vadd /vneg /=; congr pair; ring.
rewrite eqxx /= -mulmvD -!mulmvN determinant2_mulmv ok.
case: ltP => [pos_m|neg_m].
  rewrite leNgt mulr_gt0 //=; eexists; first by [].
  split=> //=.
    apply/well_formedP; split=> //=;
      last by rewrite -mulmvN determinant2_mulmv mulr_gt0.
    by rewrite -!mulmvD /vadd /vneg /mulmv /=; congr pair; ring.
  rewrite /BowmanTriangle.area /= -mulmvN determinant2_mulmv normrM.
  rewrite (gtr0_norm pos_m).
  by ring.
by rewrite mulr_le0_ge0 // ltW.
Qed.

(** X22. For a triangle that the constructor accepts, [vertices(basepoint)] are
    three points starting at the base point whose successive differences are
    the sides [v0], [v1], [v2]; the area is positive and is half the
    determinant of the two sides leaving the base point (the vertices are in
    counter-clockwise order). *)
Theorem vertices_sides T (basepoint : vector R) :
  well_formed T ->
  exists p0 p1 p2,
    [/\ BowmanTriangle.vertices T basepoint = [:: p0; p1; p2],
        p0 = basepoint,
        (BowmanTriangle.vsub p1 p0, BowmanTriangle.vsub p2 p1,
         BowmanTriangle.vsub p0 p2) = (v0 T, v1 T, v2 T)
      & 0 < BowmanTriangle.area T
        /\ BowmanTriangle.area T
           = determinant2 (BowmanTriangle.vsub p1 p0,
                           BowmanTriangle.vsub p2 p0) / 2].
Proof.
case: T => e f g pts /well_formedP /= [/closing_third -> pos ok].
rewrite /BowmanTriangle.vertices /BowmanTriangle.area /=.
do 3!eexists; split; [by [] | by [] | |].
  case: basepoint e f {pos} => [x y] [e1 e2] [f1 f2].
  by rewrite /BowmanTriangle.vsub /vadd /vneg /=; congr (_, _, _); congr pair;
     ring.
rewrite gtr0_norm //; split; first by lra.
case: basepoint e f {pos} => [x y] [e1 e2] [f1 f2].
by rewrite /BowmanTriangle.vsub /determinant2 /vadd /vneg /=; field.
Qed.

End BowmanTriangleProperties.

(** ** Witnesses *)

Lemma unit_circle_valid : valid (Circle (1 : algR) 0 (-1)).
Proof. by rewrite /= oner_eq0 /=; lra. Qed.

Lemma Line_0_m1_2_valid : valid (Line (0 : algR) (-1) 2).
Proof. by rewrite /= eqxx oppr_eq0 oner_eq0. Qed.

Lemma valid_orientation_witness :
  let h : HalfPlane algR := Circle 1 0 (-1) in
  valid h
  /\ is_oriented h = Return (if isinstance_Line h then b h < 0 else a h < 0).
Proof.
by split; [exact: unit_circle_valid
          | have [] := valid_orientation 0 unit_circle_valid].
Defined.

Lemma Line_endpoints_witness :
  let h : HalfPlane algR := Line 0 (-1) 2 in
  valid h
  /\ contains_point h (Point.of_number (- c h / b h) 0) true = Return true.
Proof.
by split; [exact: Line_0_m1_2_valid
          | have [] := @Line_endpoints _ (Line 0 (-1) 2) isT Line_0_m1_2_valid].
Defined.

Lemma Circle_endpoints_witness :
  let h : HalfPlane algR := Circle 1 0 (-1) in
  valid h /\ exists p, start h = Return p.
Proof.
split; first exact: unit_circle_valid.
have [xs [xe [-> _ _ _ _]]] :=
  @Circle_endpoints _ (Circle 1 0 (-1)) isT unit_circle_valid.
by eexists.
Defined.

Lemma witness_points_witness :
  let h : HalfPlane algR := Circle 1 0 (-1) in
  valid h
  /\ exists inside, _point_inside h = Return inside
                    /\ contains_point h inside false = Return true.
Proof.
split; first exact: unit_circle_valid.
have [inside [outside [inside_h _ contained _]]] :=
  witness_points unit_circle_valid.
by exists inside.
Defined.

(** The unit circle and the line [u = 0] meet at height 1. *)
Lemma unit_circle_meets_axis :
  intersect_boundaries (Circle (1 : algR) 0 (-1)) (Line 0 1 0)
  = Some (Point.Make (Point.Finite (Radical.Make 0 0 0)) 1).
Proof.
apply: intersect_boundaries_regular => //=.
- by rewrite /determinant2 /=; apply/eqP; lra.
- by lra.
- by lra.
Qed.

Lemma intersect_boundaries_sound_witness :
  let h1 : HalfPlane algR := Circle 1 0 (-1) in
  let h2 : HalfPlane algR := Line 0 1 0 in
  exists p, intersect_boundaries h1 h2 = Some p /\ 0 <= Point.v p.
Proof.
eexists; split; first exact: unit_circle_meets_axis.
by have /= [u [_ ? _ _]] := intersect_boundaries_sound unit_circle_meets_axis.
Defined.

Lemma intersect_boundaries_complete_witness :
  intersect_boundaries (Circle (1 : algR) 0 (-1)) (Line 0 1 0)
  = Some (Point.Make (Point.Finite (Radical.Make 0 0 0)) 1).
Proof.
apply: intersect_boundaries_complete => //=.
- by rewrite /determinant2 /=; apply/eqP; lra.
- by lra.
- by lra.
Defined.

Lemma intersect_edge_shape_witness :
  let h : HalfPlane algR := BaseHalfPlane 0 0 0 in
  let p := Point.of_number 1 0 in
  let e := Edge.Make (Some h) (Some p) (Some p) in
  intersect_edge (fun _ _ _ => true) h e = Return [:: e]
  /\ (size [:: e] <= 2)%N.
Proof.
have clip : intersect_edge (fun _ _ _ => true) (BaseHalfPlane (0 : algR) 0 0)
              (Edge.Make (Some (BaseHalfPlane 0 0 0))
                 (Some (Point.of_number 1 0)) (Some (Point.of_number 1 0)))
            = Return [:: Edge.Make (Some (BaseHalfPlane 0 0 0))
                           (Some (Point.of_number 1 0))
                           (Some (Point.of_number 1 0))].
  rewrite /intersect_edge /= /_intersect_edge_real /= /contains_point /=.
  rewrite /contains_ordinary /Point._plug_point_into_halfplane /=.
  by rewrite !mul0r !addr0 eqxx.
split; first exact: clip.
by have [] := intersect_edge_shape clip.
Defined.

Lemma base_halfplane_cannot_clip_ideal_witness :
  let p : Point.t algR := Point.of_number 1 0 in
  let e := Edge.Make None (Some p) (Some p) in
  Edge.is_ideal e
  /\ intersect_edge (fun _ _ _ => true) (BaseHalfPlane 0 0 0) e
     = Raise NotImplementedError.
Proof. by split; [|apply: base_halfplane_cannot_clip_ideal]. Defined.

Lemma square_torus_valid :
  all (@Triangle_valid rat) (Triangulation.triangles square_torus).
Proof. by vm_compute. Qed.

Lemma Triangle_apply_matrix_cases_witness :
  let tri : Triangle.t rat := Triangle.Make [:: (1, 0); (0, 1); (-1, -1)] in
  Triangle_valid tri
  /\ exists tri', Triangle_apply_matrix tri ((1, 1), (0, 1)) = Return tri'.
Proof.
have ok : Triangle_valid (Triangle.Make [:: (1, 0); (0, 1); (-1, -1) : vector rat]).
  by vm_compute.
split=> //; rewrite (Triangle_apply_matrix_cases _ ok).
have -> : 0 < determinant2 ((1, 1), (0, 1) : rat * rat) by vm_compute.
by eexists.
Defined.

Lemma Triangulation_apply_matrix_cases_witness :
  all (@Triangle_valid rat) (Triangulation.triangles square_torus)
  /\ exists t', Triangulation_apply_matrix square_torus ((1, 1), (0, 1))
                = Return t'.
Proof.
split; first exact: square_torus_valid.
have pos : 0 < determinant2 ((1, 1), (0, 1) : rat * rat) by vm_compute.
have [/(_ pos) [t' -> _] _] :=
  Triangulation_apply_matrix_cases ((1, 1), (0, 1)) square_torus_valid.
by exists t'.
Defined.

Lemma is_delaunay_apply_matrix_witness :
  exists hs, Triangulation.hinges square_torus = Return hs
    /\ exists t', Triangulation_apply_matrix square_torus ((1, 1), (0, 1))
                  = Return t'.
Proof.
case hinges_t: (Triangulation.hinges square_torus) square_torus_hinges
  => [hs|] // _.
exists hs; split=> //.
have pos : 0 < (1 : rat) by vm_compute.
have [t' -> _] := is_delaunay_apply_matrix 1 square_torus_valid pos hinges_t.
by exists t'.
Defined.

Lemma edges_gluings_cover_witness :
  Triangulation.fixed_point_free_involution square_torus
  /\ exists ps, Triangulation.edges_gluings square_torus = Return ps.
Proof.
split; first exact: square_torus_involution.
have [ps -> _] := edges_gluings_cover square_torus_involution.
by exists ps.
Defined.

Lemma square_torus_glued : consistently_glued square_torus.
Proof. by vm_compute. Qed.

Lemma hinges_total_witness :
  [/\ Triangulation.fixed_point_free_involution square_torus,
      all (@Triangle_valid rat) (Triangulation.triangles square_torus),
      consistently_glued square_torus
    & exists hs, Triangulation.hinges square_torus = Return hs].
Proof.
split; [exact: square_torus_involution | exact: square_torus_valid
       | exact: square_torus_glued |].
have [hs -> _] :=
  hinges_total square_torus_involution square_torus_valid square_torus_glued.
by exists hs.
Defined.

Lemma hinge_side_independent_witness :
  let tri1 : Triangle.t rat := Triangle.Make [:: (1, 0); (0, 1); (-1, -1)] in
  let tri2 : Triangle.t rat := Triangle.Make [:: (-1, 0); (0, -1); (1, 1)] in
  exists hinge hinge',
    [/\ Hinge._from_triangles tri1 0 tri2 0 = Return hinge,
        Hinge._from_triangles tri2 0 tri1 0 = Return hinge'
      & Hinge.incircle_test hinge' = Hinge.incircle_test hinge].
Proof.
move=> tri1 tri2.
have c1 : closing3 tri1 by vm_compute.
have c2 : closing3 tri2 by vm_compute.
have : returns (Hinge._from_triangles tri1 0 tri2 0) by vm_compute.
case from12: (Hinge._from_triangles tri1 0 tri2 0) => [hinge|] // _.
have [hinge' from21 [same _]] := hinge_side_independent c1 c2 from12.
by exists hinge, hinge'.
Defined.

Lemma square_torus_over_valid (R : realFieldType) :
  all (@Triangle_valid R) (Triangulation.triangles (square_torus_over R)).
Proof.
rewrite /= andbT; apply/andP; split; apply/Triangle_validP; split=> //=.
- by rewrite /vadd /=; congr pair; ring.
- by rewrite /determinant2 /=; lra.
- by rewrite /vadd /=; congr pair; ring.
- by rewrite /determinant2 /=; lra.
Qed.

Lemma square_torus_over_hinges (R : realFieldType) :
  returns (Triangulation.hinges (square_torus_over R)).
Proof.
rewrite /Triangulation.hinges /Triangulation.edges /=.
rewrite /Triangulation._hinge /= /Hinge._from_triangles /= /vneg /=.
by rewrite !opprK !oppr0 !eqxx.
Qed.

Lemma is_delaunay_iff_halfplanes_contain_witness :
  exists hs, Triangulation.hinges (square_torus_over algR) = Return hs
    /\ exists t', Triangulation_apply_matrix (square_torus_over algR)
                    ((1, 0), (0, 1)) = Return t'.
Proof.
case hinges_t: (Triangulation.hinges (square_torus_over algR))
  (square_torus_over_hinges algR) => [hs|] // _.
exists hs; split=> //.
have [t' -> _] :=
  is_delaunay_iff_halfplanes_contain 0 (square_torus_over_valid algR)
    ltr01 hinges_t.
by exists t'.
Defined.

(** A right triangle of bowman/triangle.py without marked points. *)
Lemma right_triangle_well_formed :
  BowmanTriangle.well_formed
    (BowmanTriangle.Make (1, 0) (0, 1) (-1, -1) [::]
     : BowmanTriangle.t algR nat).
Proof.
apply/well_formedP; split=> //=.
  by rewrite /vadd /=; congr pair; ring.
by rewrite /determinant2 /=; lra.
Qed.

Lemma mark_point_cases_witness :
  let T : BowmanTriangle.t algR nat :=
    BowmanTriangle.Make (1, 0) (0, 1) (-1, -1) [::] in
  BowmanTriangle.well_formed T
  /\ exists T', BowmanTriangle.mark_point T (1, 0, 0) 0%N
                = BowmanTriangle.Ok T'.
Proof.
split; first exact: right_triangle_well_formed.
have := mark_point_cases (1, 0, 0) 0%N right_triangle_well_formed.
rewrite /BowmanTriangle.is_valid_barycentric_coordinate !addr0 eqxx /=.
by rewrite ltxx ltr10 /= => -[T' -> _]; exists T'.
Defined.

Lemma reflect_involution_witness :
  let T : BowmanTriangle.t algR nat :=
    BowmanTriangle.Make (1, 0) (0, 1) (-1, -1) [::] in
  BowmanTriangle.well_formed T
  /\ exists T', BowmanTriangle.reflect T 0 = BowmanTriangle.Ok T'.
Proof.
split; first exact: right_triangle_well_formed.
have /= [T' -> _] := reflect_involution 0 right_triangle_well_formed.
by exists T'.
Defined.

Lemma BowmanTriangle_apply_matrix_cases_witness :
  let T : BowmanTriangle.t algR nat :=
    BowmanTriangle.Make (1, 0) (0, 1) (-1, -1) [::] in
  BowmanTriangle.well_formed T
  /\ exists T', BowmanTriangle.apply_matrix T ((1, 0), (0, 1))
                = BowmanTriangle.Ok T'.
Proof.
split; first exact: right_triangle_well_formed.
have := BowmanTriangle_apply_matrix_cases ((1, 0), (0, 1))
          right_triangle_well_formed.
have -> : 0 < determinant2 ((1, 0), (0, 1) : algR * algR).
  by rewrite /determinant2 /=; lra.
by case=> T' -> _; exists T'.
Defined.

Lemma vertices_sides_witness :
  let T : BowmanTriangle.t algR nat :=
    BowmanTriangle.Make (1, 0) (0, 1) (-1, -1) [::] in
  BowmanTriangle.well_formed T /\ 0 < BowmanTriangle.area T.
Proof.
split; first exact: right_triangle_well_formed.
by have [p0 [p1 [p2 [_ _ _ []]]]] :=
  vertices_sides (0, 0) right_triangle_well_formed.
Defined.
